(** * photoselector: convert_image_to_icons.py

    A shallow embedding of the three core operations of
    [convert_image_to_icons.py]

      - [analyze_background_color]  (spec: sampleBackgroundColor)
      - [find_content_bbox]         (spec: findContentBoundingBox)
      - [create_icon_from_cropped]  (spec: composeIcon)

    together with the properties the specification states about them.

    Numbers.  Python [int] is [Z]; array shapes and pixel indices are [nat].
    Two layers describe the floating-point values.  The geometry of the
    bounding box and of the icon canvas is stated over exact rationals [Q]
    (with one extra value [NaN] for the mean of an empty sample), compared
    with [Qeq] ([==]).  The colour sampler is in addition embedded bit for
    bit in [FloatSampler]: the margin is computed in binary64 and the mean
    as numpy does in float32, a running sum in sample order divided by the
    count, over the IEEE-754 operations of [SpecFloat]. *)

From Stdlib Require Import ZArith QArith Qround List Bool Lia Lqa Arith Morphisms.
From Stdlib Require String.
From Stdlib Require SpecFloat.
Import String.StringSyntax.
Import ListNotations.

Delimit Scope string_scope with string.

Local Open Scope Z_scope.

(* ================================================================== *)
(** * Python and numpy primitives used by the script *)
(* ================================================================== *)

Module Py.

(** Exceptions the modelled lines can raise. *)
Inductive exn : Type :=
| ZeroDivisionError
| ValueError.

(** The outcome of a call: a value, or a raised exception. *)
Inductive result (A : Type) : Type :=
| Ok (a : A)
| Raise (e : exn).
Arguments Ok {A} a.
Arguments Raise {A} e.

Definition bind {A B : Type} (m : result A) (k : A -> result B) : result B :=
  match m with
  | Ok a => k a
  | Raise e => Raise e
  end.

Definition raises {A : Type} (m : result A) : Prop :=
  exists e, m = Raise e.

(** [int(x)] on a float: truncation toward zero. *)
Definition int_of_float (x : Q) : Z := Z.quot (Qnum x) (Zpos (Qden x)).

(** [round(x)] on a float: nearest integer, ties to the even one. *)
Definition round (x : Q) : Z :=
  let f := Qfloor x in
  match Qcompare (x - inject_Z f) (1 # 2) with
  | Lt => f
  | Gt => f + 1
  | Eq => if Z.even f then f else f + 1
  end.

(** [a / b] on floats; a zero divisor raises. *)
Definition truediv (a b : Q) : result Q :=
  if Qeq_bool b 0 then Raise ZeroDivisionError else Ok (a / b)%Q.

(** [a // b] on ints, for the positive divisor the script uses. *)
Definition floordiv (a b : Z) : Z := a / b.

(** Strict comparison of floats. *)
Definition Qlt_bool (a b : Q) : bool := negb (Qle_bool b a).

(** A slice bound [i] of a sequence of length [n], as Python clamps it:
    a negative bound counts from the end. *)
Definition clamp_index (n : nat) (i : Z) : nat :=
  if i <? 0 then Z.to_nat (Z.max 0 (Z.of_nat n + i))
  else Nat.min (Z.to_nat i) n.

(** [l[lo:hi]] *)
Definition slice {A : Type} (l : list A) (lo hi : Z) : list A :=
  let a := clamp_index (length l) lo in
  let b := clamp_index (length l) hi in
  firstn (b - a) (skipn a l).

(** [l[lo:]] *)
Definition slice_from {A : Type} (l : list A) (lo : Z) : list A :=
  skipn (clamp_index (length l) lo) l.

End Py.

Import Py.

Notation "x <- m ;; k" := (Py.bind m (fun x => k))
  (at level 61, m at next level, right associativity).

(* ================================================================== *)
(** * Images and colours *)
(* ================================================================== *)

(** An RGB pixel of a PIL image: three 8-bit channels. *)
Definition pixel : Type := (Z * Z * Z)%type.

(** A pixel of the [float32] array. *)
Definition fpixel : Type := (Q * Q * Q)%type.

(** A PIL image in mode RGB: [rows] holds [height] rows of [width] pixels. *)
Record image : Type := mkImage {
  width : nat;
  height : nat;
  rows : list (list pixel)
}.

Definition wf_image (img : image) : Prop :=
  length (rows img) = height img /\
  Forall (fun r => length r = width img) (rows img).

(** The pixel in row [i], column [j]. *)
Definition pixel_at (img : image) (i j : nat) : option pixel :=
  match nth_error (rows img) i with
  | Some r => nth_error r j
  | None => None
  end.

(** A colour as numpy returns it: three real channels, or NaN in every
    channel (the mean over axis 0 of an empty sample). *)
Inductive fcolor : Type :=
| Color (r g b : Q)
| NaN.

Definition color_eq (c d : fcolor) : Prop :=
  match c, d with
  | Color r g b, Color r' g' b' => (r == r' /\ g == g' /\ b == b')%Q
  | NaN, NaN => True
  | _, _ => False
  end.

Definition to_float (p : pixel) : fpixel :=
  let '(r, g, b) := p in (inject_Z r, inject_Z g, inject_Z b).

(** [np.array(img, dtype=np.float32)]: shape (height, width, 3). *)
Definition np_array (img : image) : list (list fpixel) :=
  map (map to_float) (rows img).

Definition chan_r (p : fpixel) : Q := fst (fst p).
Definition chan_g (p : fpixel) : Q := snd (fst p).
Definition chan_b (p : fpixel) : Q := snd p.

Definition Qsum (l : list Q) : Q := fold_right Qplus 0%Q l.

(** The arithmetic mean of one channel of a sample. *)
Definition chan_mean (ch : fpixel -> Q) (l : list fpixel) : Q :=
  (Qsum (map ch l) / inject_Z (Z.of_nat (length l)))%Q.

(** [np.mean(a, axis=0)] on an array of shape (n, 3). *)
Definition np_mean (l : list fpixel) : fcolor :=
  match l with
  | [] => NaN
  | _ :: _ => Color (chan_mean chan_r l) (chan_mean chan_g l) (chan_mean chan_b l)
  end.

(* ================================================================== *)
(** * Background sampler *)
(* ================================================================== *)

Module Sampler.

(** [int(min(h, w) * margin_percent / 100)] *)
Definition margin_of (h w : nat) (margin_percent : Q) : Z :=
  int_of_float (inject_Z (Z.of_nat (Nat.min h w)) * margin_percent / 100)%Q.

(** The four edge strips, each reshaped to a list of pixels, stacked in
    the order top, bottom, left, right. *)
Definition top_edge (a : list (list fpixel)) (margin : Z) : list fpixel :=
  concat (slice a 0 margin).
Definition bottom_edge (a : list (list fpixel)) (margin : Z) : list fpixel :=
  concat (slice_from a (- margin)).
Definition left_edge (a : list (list fpixel)) (margin : Z) : list fpixel :=
  concat (map (fun r => slice r 0 margin) a).
Definition right_edge (a : list (list fpixel)) (margin : Z) : list fpixel :=
  concat (map (fun r => slice_from r (- margin)) a).

Definition all_edges (a : list (list fpixel)) (margin : Z) : list fpixel :=
  top_edge a margin ++ bottom_edge a margin ++
  left_edge a margin ++ right_edge a margin.

Definition analyze_background_color (img : image) (margin_percent : Q)
  : result fcolor :=
  let img_array := np_array img in
  let h := height img in
  let w := width img in
  let margin := margin_of h w margin_percent in
  let background_color := np_mean (all_edges img_array margin) in
  Ok background_color.

End Sampler.

(* ================================================================== *)
(** * Content bounding-box finder *)
(* ================================================================== *)

Module BBox.

(** A bounding box (left, top, right, bottom); right and bottom are
    exclusive. *)
Definition bbox : Type := (nat * nat * nat * nat)%type.

(** [np.sqrt((r - bg_r)**2 + (g - bg_g)**2 + (b - bg_b)**2) > tolerance]
    for one pixel.  The root of [d2 >= 0] exceeds [tolerance] exactly when
    [tolerance] is negative or [tolerance^2 < d2]; a comparison with NaN
    is false. *)
Definition color_diff_exceeds (background_color : fcolor) (tolerance : Q)
           (p : fpixel) : bool :=
  match background_color with
  | NaN => false
  | Color bg_r bg_g bg_b =>
      let d2 := ((chan_r p - bg_r) ^ 2 + (chan_g p - bg_g) ^ 2 +
                 (chan_b p - bg_b) ^ 2)%Q in
      Qlt_bool tolerance 0 || Qlt_bool (tolerance * tolerance) d2
  end.

(** [is_content = color_diff > tolerance], shape (height, width). *)
Definition is_content (img_array : list (list fpixel))
           (background_color : fcolor) (tolerance : Q) : list (list bool) :=
  map (map (color_diff_exceeds background_color tolerance)) img_array.

(** [np.any(m)] *)
Definition np_any (m : list (list bool)) : bool :=
  existsb (existsb (fun b => b)) m.

(** [np.any(m, axis=1)]: one flag per row. *)
Definition np_any_axis1 (m : list (list bool)) : list bool :=
  map (existsb (fun b => b)) m.

(** [np.any(m, axis=0)]: one flag per column of a mask with [w] columns. *)
Definition np_any_axis0 (w : nat) (m : list (list bool)) : list bool :=
  map (fun j => existsb (fun r => nth j r false) m) (seq 0 w).

(** [np.where(v)[0]]: the indices of the true entries, ascending. *)
Definition np_where (v : list bool) : list nat :=
  filter (fun i => nth i v false) (seq 0 (length v)).

Definition find_content_bbox (img : image) (margin_percent tolerance : Q)
  : result bbox :=
  let img_array := np_array img in
  background_color <- Sampler.analyze_background_color img margin_percent ;;
  let is_content := is_content img_array background_color tolerance in
  if negb (np_any is_content) then
    Ok (0, 0, width img, height img)%nat
  else
    let rows := np_any_axis1 is_content in
    let cols := np_any_axis0 (width img) is_content in
    let row_indices := np_where rows in
    let col_indices := np_where cols in
    match row_indices, col_indices with
    | top :: _, left_ :: _ =>
        let bottom := (last row_indices 0 + 1)%nat in
        let right_ := (last col_indices 0 + 1)%nat in
        Ok (left_, top, right_, bottom)
    | _, _ => Ok (0, 0, width img, height img)%nat
    end.

End BBox.

(* ================================================================== *)
(** * Icon compositor *)
(* ================================================================== *)

Module Compositor.

(** [tuple(int(c) for c in bg_color)]; [int] of a NaN raises. *)
Definition bg_tuple_of (bg_color : fcolor) : result pixel :=
  match bg_color with
  | NaN => Raise ValueError
  | Color r g b => Ok (int_of_float r, int_of_float g, int_of_float b)
  end.

(** Pillow stores a channel of a fill colour clipped to 8 bits. *)
Definition clip8 (v : Z) : Z := Z.max 0 (Z.min 255 v).

Definition clip8_pixel (p : pixel) : pixel :=
  let '(r, g, b) := p in (clip8 r, clip8 g, clip8 b).

(** [Image.new('RGB', (w, h), color)]: a uniformly filled image; a
    negative size raises. *)
Definition Image_new (w h : Z) (color : pixel) : result image :=
  if (w <? 0) || (h <? 0) then Raise ValueError
  else Ok (mkImage (Z.to_nat w) (Z.to_nat h)
             (repeat (repeat (clip8_pixel color) (Z.to_nat w)) (Z.to_nat h))).

(** The pixel of [img] in row [i], column [j], for integer coordinates
    that may fall outside the image. *)
Definition pixel_atZ (img : image) (i j : Z) : option pixel :=
  if (i <? 0) || (j <? 0) then None
  else pixel_at img (Z.to_nat i) (Z.to_nat j).

Definition mapi {A B : Type} (f : nat -> A -> B) (l : list A) : list B :=
  map (fun ia => f (fst ia) (snd ia)) (combine (seq 0 (length l)) l).

(** [icon.paste(src, (x, y))]: the pixels of [src] overwrite those of
    the canvas at offset (x, y); whatever falls outside the canvas is
    dropped, the canvas keeps its size. *)
Definition paste (icon src : image) (x y : Z) : image :=
  mkImage (width icon) (height icon)
    (mapi (fun i row =>
             mapi (fun j p =>
                     match pixel_atZ src (Z.of_nat i - y) (Z.of_nat j - x) with
                     | Some q => q
                     | None => p
                     end) row)
          (rows icon)).

(** Nearest-neighbour resampling: one concrete resampling filter. *)
Definition resize_nearest (img : image) (new_w new_h : Z) : image :=
  let w := Z.to_nat new_w in
  let h := Z.to_nat new_h in
  mkImage w h
    (map (fun i =>
            map (fun j =>
                   nth (j * width img / w)%nat
                       (nth (i * height img / h)%nat (rows img) [])
                       (0, 0, 0))
                (seq 0 w))
         (seq 0 h)).

(** Lines 109-115: the size of the resized content. *)
Definition scaled_size (cropped : image) (icon_size : Z) (scale_up : Q)
  : result (Z * Z) :=
  let width := Z.of_nat (width cropped) in
  let height := Z.of_nat (height cropped) in
  let max_dim := Z.max width height in
  scale <- truediv (inject_Z icon_size * scale_up) (inject_Z max_dim) ;;
  let new_w := Z.max 1 (round (inject_Z width * scale)) in
  let new_h := Z.max 1 (round (inject_Z height * scale)) in
  Ok (new_w, new_h).

(** Lines 122-123: the paste offset along one axis. *)
Definition center_offset (icon_size new_dim : Z) : Z :=
  floordiv (icon_size - new_dim) 2.

(** Lines 120-121: the canvas filled with the background colour. *)
Definition new_canvas (bg_color : fcolor) (icon_size : Z) : result image :=
  bg_tuple <- bg_tuple_of bg_color ;;
  Image_new icon_size icon_size bg_tuple.

Section WithResampling.

(** [cropped.resize((new_w, new_h), Image.Resampling.LANCZOS)]: the
    filter itself is Pillow's; only the size of its result matters
    here. *)
Variable resize : image -> Z -> Z -> image.

Definition create_icon_from_cropped (cropped : image) (bg_color : fcolor)
           (icon_size : Z) (scale_up : Q) : result image :=
  wh <- scaled_size cropped icon_size scale_up ;;
  let '(new_w, new_h) := wh in
  let resized := resize cropped new_w new_h in
  icon <- new_canvas bg_color icon_size ;;
  let x_offset := center_offset icon_size new_w in
  let y_offset := center_offset icon_size new_h in
  Ok (paste icon resized x_offset y_offset).

End WithResampling.

End Compositor.

(* ================================================================== *)
(** * The specification's reading of the operations *)
(* ================================================================== *)

Module Spec.

(** Round to nearest, ties away from zero. *)
Definition round_half_away (x : Q) : Z :=
  if Qle_bool 0 x then Qfloor (x + (1 # 2)) else Qceiling (x - (1 # 2)).

(** Round to nearest, ties to even. *)
Definition round_half_even (x : Q) : Z := Py.round x.

(** [m = floor(min(height, width) * marginPercent / 100)] *)
Definition margin (h w : nat) (marginPercent : Q) : Z :=
  Qfloor (inject_Z (Z.of_nat (Nat.min h w)) * marginPercent / 100)%Q.

(** The pixels of the [h] x [w] array [a] at the positions [(i, j)] that
    satisfy [sel], in row-major order. *)
Definition select (a : list (list fpixel)) (h w : nat)
           (sel : nat -> nat -> bool) : list fpixel :=
  flat_map (fun i =>
    flat_map (fun j =>
      if sel i j then [nth j (nth i a []) (0, 0, 0)%Q] else [])
      (seq 0 w))
    (seq 0 h).

(** The four bands of thickness [m]. *)
Definition in_top (m : Z) (i j : nat) : bool := Z.of_nat i <? m.
Definition in_bottom (h : nat) (m : Z) (i j : nat) : bool :=
  Z.of_nat h - m <=? Z.of_nat i.
Definition in_left (m : Z) (i j : nat) : bool := Z.of_nat j <? m.
Definition in_right (w : nat) (m : Z) (i j : nat) : bool :=
  Z.of_nat w - m <=? Z.of_nat j.

(** The sample of an edge band of thickness [m]: the four bands one
    after the other, so that a corner pixel occurs once for each band it
    lies in. *)
Definition band_sample (a : list (list fpixel)) (h w : nat) (m : Z)
  : list fpixel :=
  select a h w (in_top m) ++ select a h w (in_bottom h m) ++
  select a h w (in_left m) ++ select a h w (in_right w m).

(** Every pixel of the image, row by row. *)
Definition all_pixels (a : list (list fpixel)) : list fpixel := concat a.

(** Pixel (row [i], column [j]) is content. *)
Definition content_at (m : list (list bool)) (i j : nat) : Prop :=
  nth j (nth i m []) false = true.

(** A row or column is content-bearing when some pixel in it is content. *)
Definition row_bearing (m : list (list bool)) (w : nat) (i : nat) : Prop :=
  exists j, (j < w)%nat /\ content_at m i j.
Definition col_bearing (m : list (list bool)) (h : nat) (j : nat) : Prop :=
  exists i, (i < h)%nat /\ content_at m i j.


End Spec.

(* ================================================================== *)
(** * Concrete inputs *)
(* ================================================================== *)

(** The [h] x [w] image whose pixels all have colour [c]. *)
Definition uniform_image (c : pixel) (h w : nat) : image :=
  mkImage w h (repeat (repeat c w) h).

(** The zero-size image. *)
Definition empty_image : image := mkImage 0 0 [].

(** A 3 x 4 black image with one red pixel in row 1, column 2. *)
Definition dot_image : image :=
  mkImage 4 3
    [ [(0, 0, 0); (0, 0, 0); (0, 0, 0); (0, 0, 0)];
      [(0, 0, 0); (0, 0, 0); (200, 0, 0); (0, 0, 0)];
      [(0, 0, 0); (0, 0, 0); (0, 0, 0); (0, 0, 0)] ].


(* ================================================================== *)
(** * Driver *)
(* ================================================================== *)

Module Driver.

Import Compositor.

Definition INPUT_IMAGE : String.string :=
  "/Users/etokoji/Downloads/Gemini_Generated_Image_fwi0qsfwi0qsfwi0.png"%string.

Definition OUTPUT_DIR : String.string :=
  "/Users/etokoji/Documents/swift-app/photoSelector/photoSelector/Assets.xcassets/AppIcon.appiconset"%string.

(** macOS icon sizes: (size_1x, filename). *)
Definition ICON_SIZES : list (Z * String.string) :=
  [ (16, "AppIcon-16x16.png"%string);
    (32, "AppIcon-32x32.png"%string);
    (64, "AppIcon-64x64.png"%string);
    (128, "AppIcon-128x128.png"%string);
    (256, "AppIcon-256x256.png"%string);
    (512, "AppIcon-512x512.png"%string);
    (1024, "AppIcon-1024x1024.png"%string) ].

(** [SCALE_UP = 1.15] *)
Definition SCALE_UP : Q := 115 # 100.

(** [CENTER_FRACTION = 0.5] *)
Definition CENTER_FRACTION : Q := 5 # 10.

(** The default [margin_percent=5] of [analyze_background_color]. *)
Definition default_margin_percent : Q := 5.

(** [os.path.join(a, b)] for a relative [b] and an [a] that does not end
    in a separator. *)
Definition path_join (a b : String.string) : String.string :=
  String.append a (String.append "/"%string b).

(** Lines 144-150: the box of the central square crop of a [w] x [h]
    image, for a given centre fraction. *)
Definition center_crop_box (center_fraction : Q) (w h : Z) : Z * Z * Z * Z :=
  let side := int_of_float (inject_Z (Z.min w h) * center_fraction) in
  let cx := floordiv w 2 in
  let cy := floordiv h 2 in
  let left_ := Z.max 0 (cx - floordiv side 2) in
  let top := Z.max 0 (cy - floordiv side 2) in
  let right_ := Z.min w (left_ + side) in
  let bottom := Z.min h (top + side) in
  (left_, top, right_, bottom).

(** [img.crop((left, top, right, bottom))]: the pixels of the box; what
    lies outside the image is black; a box with right < left or
    bottom < top raises. *)
Definition crop (img : image) (box : Z * Z * Z * Z) : result image :=
  let '(left_, top, right_, bottom) := box in
  if (right_ <? left_) || (bottom <? top) then Raise ValueError
  else
    let w := Z.to_nat (right_ - left_) in
    let h := Z.to_nat (bottom - top) in
    Ok (mkImage w h
          (map (fun i =>
                  map (fun j =>
                         match pixel_atZ img (top + Z.of_nat i)
                                         (left_ + Z.of_nat j) with
                         | Some p => p
                         | None => (0, 0, 0)
                         end)
                      (seq 0 w))
               (seq 0 h))).

(** What the driver sees of the file system: whether a path exists, the
    image a path decodes to ([None] when opening or converting raises),
    whether creating a directory succeeds, whether saving an image
    succeeds. *)
Record env : Type := mkEnv {
  path_exists : String.string -> bool;
  open_rgb : String.string -> option image;
  makedirs : String.string -> bool;
  save_png : String.string -> image -> bool
}.

(** What the driver does to the file system, in order. *)
Inductive event : Type :=
| MadeDir (path : String.string)
| Saved (path : String.string) (icon : image).

(** How a run ends: with a returned flag, or with the exception of
    [os.makedirs], which no handler catches. *)
Inductive outcome : Type :=
| Returned (b : bool)
| Uncaught.

Section WithWorld.

Variable resize : image -> Z -> Z -> image.
Variable e : env.

(** Lines 161-171: one icon per entry, stopping at the first failure. *)
Fixpoint save_icons (cropped : image) (bg_color : fcolor)
         (sizes : list (Z * String.string)) : bool * list event :=
  match sizes with
  | [] => (true, [])
  | (size, filename) :: rest =>
      match create_icon_from_cropped resize cropped bg_color size SCALE_UP with
      | Raise _ => (false, [])
      | Ok icon_img =>
          let output_path := path_join OUTPUT_DIR filename in
          if save_png e output_path icon_img then
            let '(ok, evs) := save_icons cropped bg_color rest in
            (ok, Saved output_path icon_img :: evs)
          else (false, [])
      end
  end.

Definition create_icons_from_source : outcome * list event :=
  if negb (path_exists e INPUT_IMAGE) then (Returned false, [])
  else
    match open_rgb e INPUT_IMAGE with
    | None => (Returned false, [])
    | Some source_img =>
        let w := Z.of_nat (width source_img) in
        let h := Z.of_nat (height source_img) in
        let box := center_crop_box CENTER_FRACTION w h in
        match (cropped <- crop source_img box ;;
               bg_color <- Sampler.analyze_background_color
                             source_img default_margin_percent ;;
               Ok (cropped, bg_color)) with
        | Raise _ => (Returned false, [])
        | Ok (cropped, bg_color) =>
            if makedirs e OUTPUT_DIR then
              let '(ok, evs) := save_icons cropped bg_color ICON_SIZES in
              (Returned ok, MadeDir OUTPUT_DIR :: evs)
            else (Uncaught, [])
        end
    end.

End WithWorld.

(** The paths the driver saved to, in order. *)
Definition saved_paths (evs : list event) : list String.string :=
  flat_map (fun ev => match ev with
                      | Saved path _ => [path]
                      | MadeDir _ => []
                      end) evs.

(** The icons the driver saved, in order. *)
Definition saved_icons (evs : list event) : list image :=
  flat_map (fun ev => match ev with
                      | Saved _ icon => [icon]
                      | MadeDir _ => []
                      end) evs.

End Driver.

(* ================================================================== *)
(** * The sampler in binary floating point *)
(* ================================================================== *)

(** IEEE-754 binary formats, through the specification of the standard
    library: [SFadd], [SFmul] and [SFdiv] round to nearest, ties to even,
    in the format with [prec] bits of mantissa and exponent bound
    [emax]. *)
Module IEEE.

Definition float : Type := SpecFloat.spec_float.

(** binary64, Python's [float]. *)
Definition of_Z64 (z : Z) : float := SpecFloat.binary_normalize 53 1024 z 0 false.
Definition mul64 : float -> float -> float := SpecFloat.SFmul 53 1024.
Definition div64 : float -> float -> float := SpecFloat.SFdiv 53 1024.

(** binary32, numpy's [float32]. *)
Definition of_Z32 (z : Z) : float := SpecFloat.binary_normalize 24 128 z 0 false.
Definition add32 : float -> float -> float := SpecFloat.SFadd 24 128.
Definition div32 : float -> float -> float := SpecFloat.SFdiv 24 128.

(** An integer as an exact operand, of whatever size. *)
Definition unrounded (z : Z) : float :=
  match z with
  | Z0 => SpecFloat.S754_zero false
  | Zpos m => SpecFloat.S754_finite false m 0
  | Zneg m => SpecFloat.S754_finite true m 0
  end.

(** The real number a finite float stands for. *)
Definition to_Q (x : float) : option Q :=
  match x with
  | SpecFloat.S754_zero _ => Some 0%Q
  | SpecFloat.S754_finite s m e =>
      Some (inject_Z (SpecFloat.cond_Zopp s (Zpos m)) * 2 ^ e)%Q
  | _ => None
  end.

End IEEE.

Module FloatSampler.

Import IEEE.

(** Exceptions of the arithmetic. *)
Inductive exn : Type :=
| ZeroDivisionError
| ValueError
| OverflowError.

Inductive outcome (A : Type) : Type :=
| Returns (a : A)
| Raises (e : exn).
Arguments Returns {A} a.
Arguments Raises {A} e.

(** A Python number: an [int] or a [float]. *)
Inductive number : Type :=
| PyInt (z : Z)
| PyFloat (x : float).

(** The real value of a number, when it has one. *)
Definition value_of (n : number) : option Q :=
  match n with
  | PyInt z => Some (inject_Z z)
  | PyFloat x => to_Q x
  end.

(** [float(z)] for an int operand of a float operation. *)
Definition float_of_int (z : Z) : outcome float :=
  match of_Z64 z with
  | SpecFloat.S754_infinity _ => Raises OverflowError
  | x => Returns x
  end.

(** [a / b] on two ints: the correctly rounded quotient. *)
Definition truediv_int (a b : Z) : outcome float :=
  if b =? 0 then Raises ZeroDivisionError
  else
    match div64 (unrounded a) (unrounded b) with
    | SpecFloat.S754_infinity _ => Raises OverflowError
    | q => Returns q
    end.

(** [int(x)] on a float: truncation toward zero. *)
Definition int_of_float (x : float) : outcome Z :=
  match x with
  | SpecFloat.S754_nan => Raises ValueError
  | SpecFloat.S754_infinity _ => Raises OverflowError
  | _ =>
      match to_Q x with
      | Some q => Returns (Py.int_of_float q)
      | None => Raises ValueError
      end
  end.

(** [int(min(h, w) * margin_percent / 100)]: with an int percentage the
    product is an exact int and the division rounds once; with a float
    percentage the product and the quotient are both rounded. *)
Definition margin_of (h w : nat) (margin_percent : number) : outcome Z :=
  let m := Z.of_nat (Nat.min h w) in
  match margin_percent with
  | PyInt p =>
      match truediv_int (m * p) 100 with
      | Returns x => int_of_float x
      | Raises e => Raises e
      end
  | PyFloat p =>
      match float_of_int m with
      | Returns fm => int_of_float (div64 (mul64 fm p) (of_Z64 100))
      | Raises e => Raises e
      end
  end.

(** A pixel of the [float32] array. *)
Definition pixel32 : Type := (float * float * float)%type.

Definition to_float32 (p : pixel) : pixel32 :=
  let '(r, g, b) := p in (of_Z32 r, of_Z32 g, of_Z32 b).

(** [np.array(img, dtype=np.float32)] *)
Definition np_array (img : image) : list (list pixel32) :=
  map (map to_float32) (rows img).

Definition red (p : pixel32) : float := fst (fst p).
Definition green (p : pixel32) : float := snd (fst p).
Definition blue (p : pixel32) : float := snd p.

(** The [float32] sum of a column, accumulated from the first entry on;
    0.0 for an empty column. *)
Definition sum32 (xs : list float) : float :=
  match xs with
  | [] => SpecFloat.S754_zero false
  | x :: rest => fold_left add32 rest x
  end.

(** The [float32] mean of a column: the sum divided by the count; NaN
    (0.0 / 0) for an empty column. *)
Definition mean32 (xs : list float) : float :=
  div32 (sum32 xs) (of_Z32 (Z.of_nat (length xs))).

(** [np.mean(a, axis=0)] on a [float32] array of shape (n, 3). *)
Definition np_mean (l : list pixel32) : pixel32 :=
  (mean32 (map red l), mean32 (map green l), mean32 (map blue l)).

Section Strips.

Context {A : Type}.

Definition top_edge (a : list (list A)) (margin : Z) : list A :=
  concat (slice a 0 margin).
Definition bottom_edge (a : list (list A)) (margin : Z) : list A :=
  concat (slice_from a (- margin)).
Definition left_edge (a : list (list A)) (margin : Z) : list A :=
  concat (map (fun r => slice r 0 margin) a).
Definition right_edge (a : list (list A)) (margin : Z) : list A :=
  concat (map (fun r => slice_from r (- margin)) a).

Definition all_edges (a : list (list A)) (margin : Z) : list A :=
  top_edge a margin ++ bottom_edge a margin ++
  left_edge a margin ++ right_edge a margin.

End Strips.

Definition analyze_background_color (img : image) (margin_percent : number)
  : outcome pixel32 :=
  let img_array := np_array img in
  let h := height img in
  let w := width img in
  match margin_of h w margin_percent with
  | Raises e => Raises e
  | Returns margin =>
      let background_color := np_mean (all_edges img_array margin) in
      Returns background_color
  end.

End FloatSampler.

(** The sampler as the amended sentences describe it, in the number
    formats of the code. *)
Module Spec32.

(** The pixels of the [h] x [w] array [a] at the positions that satisfy
    [sel], in row-major order. *)
Definition select {A : Type} (d : A) (a : list (list A)) (h w : nat)
           (sel : nat -> nat -> bool) : list A :=
  flat_map (fun i =>
    flat_map (fun j => if sel i j then [nth j (nth i a []) d] else [])
             (seq 0 w))
    (seq 0 h).

(** The sample of an edge band of thickness [m]: top rows, bottom rows,
    left columns, right columns, one band after the other. *)
Definition band_sample {A : Type} (d : A) (a : list (list A)) (h w : nat)
           (m : Z) : list A :=
  select d a h w (Spec.in_top m) ++ select d a h w (Spec.in_bottom h m) ++
  select d a h w (Spec.in_left m) ++ select d a h w (Spec.in_right w m).

Definition zero32 : FloatSampler.pixel32 :=
  (SpecFloat.S754_zero false, SpecFloat.S754_zero false,
   SpecFloat.S754_zero false).

(** The running sum in float32: every partial sum is rounded to float32
    before the next sample is added. *)
Fixpoint running_sum (acc : IEEE.float) (xs : list IEEE.float) : IEEE.float :=
  match xs with
  | [] => acc
  | x :: rest => running_sum (SpecFloat.SFadd 24 128 acc x) rest
  end.

(** The float32 mean of x1 ... xn: the running sum that starts at x1,
    divided in float32 by n. *)
Definition mean (xs : list IEEE.float) : IEEE.float :=
  let total := match xs with
               | [] => SpecFloat.S754_zero false
               | x :: rest => running_sum x rest
               end in
  let n := SpecFloat.binary_normalize 24 128 (Z.of_nat (length xs)) 0 false in
  SpecFloat.SFdiv 24 128 total n.

(** The mean of each of the three channels of a sample. *)
Definition mean_color (sample : list FloatSampler.pixel32)
  : FloatSampler.pixel32 :=
  (mean (map (fun p => fst (fst p)) sample),
   mean (map (fun p => snd (fst p)) sample),
   mean (map (fun p => snd p) sample)).

End Spec32.

(** A 7 x 7 image: a one-pixel border of (10, 10, 10) around (100, 100,
    100). *)
Definition ring7_image : image :=
  mkImage 7 7
    (map (fun i =>
            map (fun j =>
                   if (i =? 0)%nat || (i =? 6)%nat || (j =? 0)%nat || (j =? 6)%nat
                   then (10, 10, 10) else (100, 100, 100))
                (seq 0 7))
         (seq 0 7)).

(** The binary64 numbers 14.285714285714285 and 28.57142857142857. *)
Definition percent_14_28 : IEEE.float :=
  SpecFloat.S754_finite false 8042142191733028 (-49).
Definition percent_28_57 : IEEE.float :=
  SpecFloat.S754_finite false 8042142191733028 (-48).

(* ================================================================== *)
(** * Further notions used in the properties *)
(* ================================================================== *)

(** A resampling filter returns a well-formed image of the requested
    size. *)
Definition resize_ok (resize : image -> Z -> Z -> image) : Prop :=
  forall img w h, 1 <= w -> 1 <= h ->
    wf_image (resize img w h) /\
    width (resize img w h) = Z.to_nat w /\
    height (resize img w h) = Z.to_nat h.

(** The event [ev] is the saving of the icon composed for the entry [sz]
    of the size table. *)
Definition saved_as (resize : image -> Z -> Z -> image) (cropped : image)
           (bg : fcolor) (ev : Driver.event) (sz : Z * String.string) : Prop :=
  exists icon,
    ev = Driver.Saved (Driver.path_join Driver.OUTPUT_DIR (snd sz)) icon /\
    Compositor.create_icon_from_cropped resize cropped bg (fst sz)
                                        Driver.SCALE_UP = Ok icon.

(** A file system where the source is [src] and every operation
    succeeds. *)
Definition friendly_env (src : image) : Driver.env :=
  Driver.mkEnv (fun _ => true) (fun _ => Some src) (fun _ => true)
               (fun _ _ => true).

(* ================================================================== *)
(** * Facts about the primitives *)
(* ================================================================== *)

Module PyFacts.

#[export] Instance round_comp : Proper (Qeq ==> eq) Py.round.
Proof.
  intros x y Hxy. unfold Py.round.
  rewrite (Qfloor_comp x y Hxy).
  assert (Hd : (x - inject_Z (Qfloor y) == y - inject_Z (Qfloor y))%Q)
    by (rewrite Hxy; reflexivity).
  rewrite (Qcompare_comp _ _ Hd _ _ (Qeq_refl (1 # 2))).
  reflexivity.
Qed.

Lemma round_inject_Z (z : Z) : Py.round (inject_Z z) = z.
Proof.
  unfold Py.round. rewrite Qfloor_Z.
  assert (Hd : (inject_Z z - inject_Z z == 0)%Q) by ring.
  rewrite (Qcompare_comp _ _ Hd _ _ (Qeq_refl (1 # 2))).
  reflexivity.
Qed.

Lemma inject_Z_nonzero (z : Z) : z <> 0 -> Qeq_bool (inject_Z z) 0 = false.
Proof.
  intros Hz. destruct (Qeq_bool (inject_Z z) 0) eqn:E; [|reflexivity].
  apply Qeq_bool_eq in E. unfold Qeq in E. simpl in E. lia.
Qed.

Lemma truediv_nonzero (a : Q) (z : Z) :
  z <> 0 -> Py.truediv a (inject_Z z) = Ok (a / inject_Z z)%Q.
Proof.
  intros Hz. unfold Py.truediv. now rewrite inject_Z_nonzero.
Qed.

Lemma truediv_zero (a : Q) : Py.truediv a (inject_Z 0) = Raise ZeroDivisionError.
Proof. reflexivity. Qed.

(** Truncation and floor agree on a non-negative float. *)
Lemma int_of_float_floor (x : Q) : 0 <= Qfloor x -> int_of_float x = Qfloor x.
Proof.
  destruct x as [n d]. unfold int_of_float, Qfloor. simpl. intros H.
  apply Z.quot_div_nonneg; [|lia].
  destruct (Z_lt_le_dec n 0) as [Hn|Hn]; [|exact Hn].
  assert (n / Z.pos d < 0) by (apply Z.div_lt_upper_bound; lia). lia.
Qed.

Lemma Qlt_bool_iff (a b : Q) : Qlt_bool a b = true <-> (a < b)%Q.
Proof.
  unfold Qlt_bool. rewrite negb_true_iff.
  split; intros H.
  - apply Qnot_le_lt. intros Hle. apply Qle_bool_iff in Hle. congruence.
  - destruct (Qle_bool b a) eqn:E; [|reflexivity].
    apply Qle_bool_iff in E. exfalso. exact (Qlt_not_le _ _ H E).
Qed.

Lemma firstn_In {A : Type} (n : nat) (l : list A) (x : A) :
  In x (firstn n l) -> In x l.
Proof.
  intros H. rewrite <- (firstn_skipn n l). apply in_or_app. now left.
Qed.

Lemma skipn_In {A : Type} (n : nat) (l : list A) (x : A) :
  In x (skipn n l) -> In x l.
Proof.
  intros H. rewrite <- (firstn_skipn n l). apply in_or_app. now right.
Qed.

Lemma slice_In {A : Type} (l : list A) (lo hi : Z) (x : A) :
  In x (slice l lo hi) -> In x l.
Proof. unfold slice. intros H. eapply skipn_In, firstn_In, H. Qed.

Lemma slice_from_In {A : Type} (l : list A) (lo : Z) (x : A) :
  In x (slice_from l lo) -> In x l.
Proof. unfold slice_from. apply skipn_In. Qed.

End PyFacts.

Import PyFacts.

(* ================================================================== *)
(** * Icon compositor: properties *)
(* ================================================================== *)

Module CompositorFacts.

Import Compositor.

Lemma mapi_length {A B : Type} (f : nat -> A -> B) (l : list A) :
  length (mapi f l) = length l.
Proof.
  unfold mapi. rewrite length_map, length_combine, length_seq.
  apply Nat.min_id.
Qed.

Lemma combine_seq_nth_error {A : Type} (l : list A) (s i : nat) :
  nth_error (combine (seq s (length l)) l) i =
  option_map (fun a => ((s + i)%nat, a)) (nth_error l i).
Proof.
  revert s i. induction l as [|a l IH]; intros s i.
  - destruct i; reflexivity.
  - destruct i as [|i]; simpl.
    + now rewrite Nat.add_0_r.
    + rewrite IH. now rewrite Nat.add_succ_r.
Qed.

Lemma mapi_nth_error {A B : Type} (f : nat -> A -> B) (l : list A) (i : nat) :
  nth_error (mapi f l) i = option_map (f i) (nth_error l i).
Proof.
  unfold mapi. rewrite nth_error_map, combine_seq_nth_error.
  destruct (nth_error l i); reflexivity.
Qed.

Lemma mapi_Forall_length {A B : Type} (f : nat -> list A -> list B)
      (l : list (list A)) (n : nat) :
  (forall i r, length (f i r) = length r) ->
  Forall (fun r => length r = n) l ->
  Forall (fun r => length r = n) (mapi f l).
Proof.
  intros Hf Hl. unfold mapi. apply Forall_forall. intros r Hr.
  apply in_map_iff in Hr. destruct Hr as [[i a] [<- Hin]]. simpl.
  rewrite Hf. apply in_combine_r in Hin.
  rewrite Forall_forall in Hl. now apply Hl.
Qed.

Lemma paste_wf (icon src : image) (x y : Z) :
  wf_image icon -> wf_image (paste icon src x y).
Proof.
  intros [Hh Hw]. split; simpl.
  - now rewrite mapi_length.
  - apply mapi_Forall_length; [|exact Hw].
    intros i r. apply mapi_length.
Qed.

Lemma nth_error_repeat_lt {A : Type} (a : A) (n i : nat) :
  (i < n)%nat -> nth_error (repeat a n) i = Some a.
Proof.
  revert i. induction n as [|n IH]; intros i Hi; [lia|].
  destruct i; simpl; [reflexivity|]. apply IH. lia.
Qed.

Lemma Image_new_ok (t : Z) (c : pixel) :
  0 <= t ->
  Image_new t t c =
  Ok (uniform_image (clip8_pixel c) (Z.to_nat t) (Z.to_nat t)).
Proof.
  intros Ht. unfold Image_new.
  replace (t <? 0) with false by (symmetry; apply Z.ltb_ge; lia).
  reflexivity.
Qed.

Lemma uniform_image_wf (c : pixel) (h w : nat) : wf_image (uniform_image c h w).
Proof.
  split; simpl.
  - apply repeat_length.
  - apply Forall_forall. intros r Hr. apply repeat_spec in Hr. subst r.
    apply repeat_length.
Qed.

Lemma uniform_image_pixel_at (c : pixel) (h w i j : nat) :
  (i < h)%nat -> (j < w)%nat -> pixel_at (uniform_image c h w) i j = Some c.
Proof.
  intros Hi Hj. unfold pixel_at, uniform_image. simpl.
  rewrite nth_error_repeat_lt by exact Hi.
  now apply nth_error_repeat_lt.
Qed.

(** What [paste] leaves at each position of the canvas. *)
Lemma paste_pixel_at (icon src : image) (x y : Z) (i j : nat) (p : pixel) :
  pixel_at icon i j = Some p ->
  pixel_at (paste icon src x y) i j =
  Some (match pixel_atZ src (Z.of_nat i - y) (Z.of_nat j - x) with
        | Some q => q
        | None => p
        end).
Proof.
  unfold pixel_at, paste. simpl. intros H.
  rewrite mapi_nth_error.
  destruct (nth_error (rows icon) i) as [r|]; [|discriminate]. simpl.
  rewrite mapi_nth_error, H. reflexivity.
Qed.


End CompositorFacts.

Import Compositor CompositorFacts.


(** Where [paste] puts a pixel of the source: at its own position shifted
    by the offsets, when that lies on the canvas. *)
Lemma paste_places_pixel (bg_pixel : pixel) (n : nat) (src : image)
      (x y : Z) (i j : nat) (q : pixel) :
  pixel_at src i j = Some q ->
  0 <= Z.of_nat i + y < Z.of_nat n ->
  0 <= Z.of_nat j + x < Z.of_nat n ->
  pixel_at (paste (uniform_image bg_pixel n n) src x y)
           (Z.to_nat (Z.of_nat i + y)) (Z.to_nat (Z.of_nat j + x)) = Some q.
Proof.
  intros Hq Hi Hj.
  erewrite paste_pixel_at by (apply uniform_image_pixel_at; lia).
  replace (Z.of_nat (Z.to_nat (Z.of_nat i + y)) - y) with (Z.of_nat i) by lia.
  replace (Z.of_nat (Z.to_nat (Z.of_nat j + x)) - x) with (Z.of_nat j) by lia.
  unfold pixel_atZ.
  replace (Z.of_nat i <? 0) with false by (symmetry; apply Z.ltb_ge; lia).
  replace (Z.of_nat j <? 0) with false by (symmetry; apply Z.ltb_ge; lia).
  cbn [orb]. now rewrite !Nat2Z.id, Hq.
Qed.

(** Where [paste] leaves the canvas: at the positions no pixel of the
    source is shifted to. *)
Lemma paste_keeps_canvas (bg_pixel : pixel) (n : nat) (src : image)
      (x y : Z) (i j : nat) :
  (i < n)%nat -> (j < n)%nat ->
  pixel_atZ src (Z.of_nat i - y) (Z.of_nat j - x) = None ->
  pixel_at (paste (uniform_image bg_pixel n n) src x y) i j = Some bg_pixel.
Proof.
  intros Hi Hj Hn.
  erewrite paste_pixel_at by (apply uniform_image_pixel_at; lia).
  now rewrite Hn.
Qed.

Lemma pixel_at_some (img : image) (i j : nat) :
  wf_image img -> (i < height img)%nat -> (j < width img)%nat ->
  exists q, pixel_at img i j = Some q.
Proof.
  intros [Hh Hw] Hi Hj. unfold pixel_at.
  destruct (nth_error (rows img) i) as [row|] eqn:E.
  - assert (L : length row = width img).
    { rewrite Forall_forall in Hw. apply Hw. eapply nth_error_In, E. }
    destruct (nth_error row j) as [q|] eqn:E2; [now exists q|].
    apply nth_error_None in E2. lia.
  - apply nth_error_None in E. lia.
Qed.

Lemma pixel_at_none_right (img : image) (i j : nat) :
  wf_image img -> (width img <= j)%nat -> pixel_at img i j = None.
Proof.
  intros [Hh Hw] Hj. unfold pixel_at.
  destruct (nth_error (rows img) i) as [row|] eqn:E; [|reflexivity].
  assert (L : length row = width img).
  { rewrite Forall_forall in Hw. apply Hw. eapply nth_error_In, E. }
  apply nth_error_None. lia.
Qed.



(** C4.  For a crop of exactly 100 x 200 pixels, target size 50 and
    scale-up factor 1.0: the scale is 0.25, the content is resized to
    25 x 50, the canvas is 50 x 50, and the content is pasted at
    x_offset = 12, y_offset = 0: the content pixel in row i, column j is
    the icon pixel in row i, column j + 12, and with a filter that returns
    the requested size the icon shows the content in columns 12..36 and the
    canvas colour in columns 0..11 and 37..49. *)
Theorem C4_scenario_100_by_200
        (resize : image -> Z -> Z -> image) (cropped : image) (r g b : Q) :
  width cropped = 100%nat ->
  height cropped = 200%nat ->
  (exists scale,
      truediv (inject_Z 50 * 1)
              (inject_Z (Z.max (Z.of_nat (width cropped))
                               (Z.of_nat (height cropped)))) = Ok scale /\
      (scale == 1 # 4)%Q) /\
  scaled_size cropped 50 1 = Ok (25, 50) /\
  center_offset 50 25 = 12 /\
  center_offset 50 50 = 0 /\
  exists canvas,
    new_canvas (Color r g b) 50 = Ok canvas /\
    width canvas = 50%nat /\ height canvas = 50%nat /\
    create_icon_from_cropped resize cropped (Color r g b) 50 1 =
      Ok (paste canvas (resize cropped 25 50) 12 0) /\
    (forall i j, (i < 50)%nat -> (j < 50)%nat ->
       pixel_at canvas i j
       = Some (clip8_pixel (int_of_float r, int_of_float g, int_of_float b))) /\
    (forall i j q,
        pixel_at (resize cropped 25 50) i j = Some q ->
        (i < 50)%nat -> (j + 12 < 50)%nat ->
        pixel_at (paste canvas (resize cropped 25 50) 12 0) i (j + 12)
        = Some q) /\
    (resize_ok resize ->
     forall i j, (i < 50)%nat -> (12 <= j < 37)%nat ->
       exists q,
         pixel_at (resize cropped 25 50) i (j - 12) = Some q /\
         pixel_at (paste canvas (resize cropped 25 50) 12 0) i j = Some q) /\
    (resize_ok resize ->
     forall i j, (i < 50)%nat -> (j < 50)%nat -> (j < 12 \/ 37 <= j)%nat ->
       pixel_at (paste canvas (resize cropped 25 50) 12 0) i j
       = pixel_at canvas i j).
Proof.
  intros Hw Hh.
  assert (E : scaled_size cropped 50 1 = Ok (25, 50)).
  { unfold scaled_size. rewrite Hw, Hh. reflexivity. }
  split.
  { rewrite Hw, Hh. eexists. split; [reflexivity|reflexivity]. }
  split; [exact E|]. split; [reflexivity|]. split; [reflexivity|].
  set (bgp := clip8_pixel (int_of_float r, int_of_float g, int_of_float b)).
  exists (uniform_image bgp 50 50).
  assert (N : new_canvas (Color r g b) 50 = Ok (uniform_image bgp 50 50)).
  { unfold new_canvas. simpl bind. now rewrite Image_new_ok by lia. }
  assert (Place : forall i j q,
             pixel_at (resize cropped 25 50) i j = Some q ->
             (i < 50)%nat -> (j + 12 < 50)%nat ->
             pixel_at (paste (uniform_image bgp 50 50)
                             (resize cropped 25 50) 12 0) i (j + 12) = Some q).
  { intros i j q Hq Hi Hj.
    pose proof (paste_places_pixel bgp 50 (resize cropped 25 50) 12 0 i j q Hq
                  ltac:(lia) ltac:(lia)) as P.
    replace (Z.to_nat (Z.of_nat i + 0)) with i in P by lia.
    replace (Z.to_nat (Z.of_nat j + 12)) with (j + 12)%nat in P by lia.
    exact P. }
  split; [exact N|]. split; [reflexivity|]. split; [reflexivity|].
  split.
  { unfold create_icon_from_cropped. rewrite E.
    cbv beta iota delta [bind]. rewrite N. reflexivity. }
  split.
  { intros i j Hi Hj. now apply uniform_image_pixel_at. }
  split; [exact Place|].
  split.
  - intros Hres i j Hi Hj.
    destruct (Hres cropped 25 50 ltac:(lia) ltac:(lia)) as [Rwf [Rw Rh]].
    destruct (pixel_at_some (resize cropped 25 50) i (j - 12) Rwf)
      as [q Hq]; [rewrite Rh; lia|rewrite Rw; lia|].
    exists q. split; [exact Hq|].
    pose proof (Place i (j - 12)%nat q Hq Hi ltac:(lia)) as P.
    replace (j - 12 + 12)%nat with j in P by lia. exact P.
  - intros Hres i j Hi Hj Hout.
    destruct (Hres cropped 25 50 ltac:(lia) ltac:(lia)) as [Rwf [Rw Rh]].
    rewrite (uniform_image_pixel_at bgp 50 50 i j Hi Hj).
    apply paste_keeps_canvas; [exact Hi|exact Hj|].
    unfold pixel_atZ.
    destruct Hout as [Hl|Hr].
    + replace (Z.of_nat j - 12 <? 0) with true
        by (symmetry; apply Z.ltb_lt; lia).
      now rewrite orb_true_r.
    + destruct ((Z.of_nat i - 0 <? 0) || (Z.of_nat j - 12 <? 0));
        [reflexivity|].
      apply pixel_at_none_right; [exact Rwf|]. rewrite Rw. lia.
Qed.

Lemma C4_witness :
  let cropped := uniform_image (1, 2, 3) 200 100 in
  width cropped = 100%nat /\ height cropped = 200%nat /\
  scaled_size cropped 50 1 = Ok (25, 50) /\
  center_offset 50 25 = 12 /\ center_offset 50 50 = 0.
Proof.
  intros cropped.
  assert (H1 : width cropped = 100%nat) by reflexivity.
  assert (H2 : height cropped = 200%nat) by reflexivity.
  pose proof (C4_scenario_100_by_200 resize_nearest cropped 0 0 0 H1 H2)
    as [_ [S [X [Y _]]]].
  repeat split; assumption.
Defined.

(** [scaled_size] succeeds on any crop with a positive side. *)
Lemma scaled_size_defined (cropped : image) (icon_size : Z) (scale_up : Q) :
  (1 <= width cropped)%nat -> (1 <= height cropped)%nat ->
  exists new_w new_h,
    scaled_size cropped icon_size scale_up = Ok (new_w, new_h) /\
    1 <= new_w /\ 1 <= new_h.
Proof.
  intros Hw Hh. unfold scaled_size.
  rewrite truediv_nonzero by lia. simpl.
  eexists. eexists. split; [reflexivity|]. lia.
Qed.

(** C6.  For a crop with both sides >= 1, a positive target size, any
    scale-up factor and a real background colour,
    [create_icon_from_cropped] returns one RGB image of exactly
    target size x target size.  Each of its pixels is the pixel of the
    resized content that the paste offset maps there, or the canvas colour
    where there is none: content beyond the canvas, also under a negative
    offset, is dropped and leaves the size unchanged. *)
Theorem C6_icon_is_target_size_square
        (resize : image -> Z -> Z -> image) (cropped : image) (r g b : Q)
        (icon_size : Z) (scale_up : Q) :
  (1 <= width cropped)%nat ->
  (1 <= height cropped)%nat ->
  0 < icon_size ->
  exists icon new_w new_h,
    create_icon_from_cropped resize cropped (Color r g b) icon_size scale_up
      = Ok icon /\
    scaled_size cropped icon_size scale_up = Ok (new_w, new_h) /\
    wf_image icon /\
    Z.of_nat (width icon) = icon_size /\
    Z.of_nat (height icon) = icon_size /\
    forall i j, (i < height icon)%nat -> (j < width icon)%nat ->
      pixel_at icon i j =
      Some (match pixel_atZ (resize cropped new_w new_h)
                            (Z.of_nat i - center_offset icon_size new_h)
                            (Z.of_nat j - center_offset icon_size new_w) with
            | Some q => q
            | None => clip8_pixel (int_of_float r, int_of_float g, int_of_float b)
            end).
Proof.
  intros Hw Hh Ht.
  destruct (scaled_size_defined cropped icon_size scale_up Hw Hh)
    as [new_w [new_h [E _]]].
  set (bg := clip8_pixel (int_of_float r, int_of_float g, int_of_float b)).
  set (n := Z.to_nat icon_size).
  exists (paste (uniform_image bg n n) (resize cropped new_w new_h)
                (center_offset icon_size new_w) (center_offset icon_size new_h)).
  exists new_w, new_h.
  split.
  { unfold create_icon_from_cropped. rewrite E.
    cbv beta iota delta [bind new_canvas bg_tuple_of].
    rewrite Image_new_ok by lia. reflexivity. }
  split; [exact E|].
  split; [apply paste_wf, uniform_image_wf|].
  split; [simpl; subst n; lia|].
  split; [simpl; subst n; lia|].
  intros i j Hi Hj. simpl in Hi, Hj.
  apply paste_pixel_at. now apply uniform_image_pixel_at.
Qed.

Lemma C6_witness :
  let cropped := uniform_image (1, 2, 3) 2 1 in
  (1 <= width cropped)%nat /\ (1 <= height cropped)%nat /\ 0 < 2 /\
  exists icon,
    create_icon_from_cropped resize_nearest cropped (Color 9 9 9) 2 2
      = Ok icon /\
    Z.of_nat (width icon) = 2 /\ Z.of_nat (height icon) = 2.
Proof.
  intros cropped.
  assert (H1 : (1 <= width cropped)%nat) by (simpl; lia).
  assert (H2 : (1 <= height cropped)%nat) by (simpl; lia).
  assert (H3 : 0 < 2) by lia.
  destruct (C6_icon_is_target_size_square
              resize_nearest cropped 9 9 9 2 2 H1 H2 H3)
    as [icon [nw [nh [E [_ [_ [W [H _]]]]]]]].
  repeat split; try assumption.
  exists icon. repeat split; assumption.
Defined.

(** With scale-up factor 2 the content of a 1 x 2 crop is resized to
    2 x 4, is pasted at offsets (0, -1), and the icon is still 2 x 2. *)
Example overscan_is_clipped :
  scaled_size (uniform_image (1, 2, 3) 2 1) 2 2 = Ok (2, 4) /\
  center_offset 2 4 = -1 /\
  create_icon_from_cropped resize_nearest (uniform_image (1, 2, 3) 2 1)
                           (Color 9 9 9) 2 2
  = Ok (uniform_image (1, 2, 3) 2 2).
Proof. repeat split; reflexivity. Qed.

(** Truncation of an in-range channel is its floor and needs no clipping. *)
Lemma clip8_int_of_float_in_range (x : Q) :
  (0 <= x)%Q -> (x < 256)%Q -> clip8 (int_of_float x) = Qfloor x.
Proof.
  intros H0 H1.
  assert (L : 0 <= Qfloor x).
  { change 0 with (Qfloor 0). now apply Qfloor_resp_le. }
  assert (U : Qfloor x < 256).
  { rewrite Zlt_Qlt. eapply Qle_lt_trans; [apply Qfloor_le|exact H1]. }
  rewrite int_of_float_floor by exact L. unfold clip8. lia.
Qed.

(** C7 fails as stated: for the background colour (127.75, 0, 0) the
    canvas is filled with (127, 0, 0), while rounding to nearest gives 128
    under either rule; the icon built on that canvas shows (127, 0, 0)
    beside the pasted content. *)
Lemma C7_counterexample :
  new_canvas (Color (511 # 4) 0 0) 2 = Ok (uniform_image (127, 0, 0) 2 2) /\
  Spec.round_half_away (511 # 4) = 128 /\
  Spec.round_half_even (511 # 4) = 128 /\
  ~ (exists rnd : Q -> Z,
        (rnd = Spec.round_half_away \/ rnd = Spec.round_half_even) /\
        new_canvas (Color (511 # 4) 0 0) 2 =
        Ok (uniform_image (rnd (511 # 4), rnd 0%Q, rnd 0%Q) 2 2)) /\
  exists icon,
    create_icon_from_cropped resize_nearest (uniform_image (9, 9, 9) 2 1)
                             (Color (511 # 4) 0 0) 2 1 = Ok icon /\
    pixel_at icon 0 0 = Some (9, 9, 9) /\
    pixel_at icon 0 1 = Some (127, 0, 0).
Proof.
  split; [reflexivity|]. split; [reflexivity|]. split; [reflexivity|].
  split.
  - intros [rnd [[-> | ->] H]]; vm_compute in H; discriminate H.
  - eexists. split; [reflexivity|]. split; reflexivity.
Qed.

(** C7, amended.  The canvas of [create_icon_from_cropped] is filled
    uniformly with the background colour truncated toward zero per channel
    (Python's [int]) and stored in 8 bits; for a channel in [0, 256), as a
    sampled mean is, that is the floor of the channel. *)
Theorem C7_canvas_is_truncated_background
        (resize : image -> Z -> Z -> image) (cropped : image)
        (r g b : Q) (icon_size : Z) (scale_up : Q) (new_w new_h : Z) :
  0 < icon_size ->
  scaled_size cropped icon_size scale_up = Ok (new_w, new_h) ->
  let canvas :=
    uniform_image
      (clip8 (int_of_float r), clip8 (int_of_float g), clip8 (int_of_float b))
      (Z.to_nat icon_size) (Z.to_nat icon_size) in
  new_canvas (Color r g b) icon_size = Ok canvas /\
  create_icon_from_cropped resize cropped (Color r g b) icon_size scale_up
    = Ok (paste canvas (resize cropped new_w new_h)
                (center_offset icon_size new_w)
                (center_offset icon_size new_h)) /\
  (forall x : Q, (0 <= x)%Q -> (x < 256)%Q -> clip8 (int_of_float x) = Qfloor x).
Proof.
  intros Ht E canvas.
  assert (N : new_canvas (Color r g b) icon_size = Ok canvas).
  { unfold new_canvas. cbv beta iota delta [bind bg_tuple_of].
    rewrite Image_new_ok by lia. reflexivity. }
  split; [exact N|]. split.
  - unfold create_icon_from_cropped. rewrite E.
    cbv beta iota delta [bind]. rewrite N. reflexivity.
  - exact clip8_int_of_float_in_range.
Qed.

Lemma C7_witness :
  let cropped := uniform_image (9, 9, 9) 2 1 in
  0 < 2 /\
  scaled_size cropped 2 1 = Ok (1, 2) /\
  new_canvas (Color (511 # 4) (1 # 2) 255) 2 =
    Ok (uniform_image (127, 0, 255) 2 2).
Proof.
  intros cropped.
  assert (H : 0 < 2) by lia.
  assert (E : scaled_size cropped 2 1 = Ok (1, 2)) by reflexivity.
  split; [exact H|]. split; [exact E|].
  exact (proj1 (C7_canvas_is_truncated_background
                  resize_nearest cropped (511 # 4) (1 # 2) 255 2 1 1 2 H E)).
Defined.

(* ================================================================== *)
(** * Background sampler: properties *)
(* ================================================================== *)

Module SamplerFacts.

Import Sampler.

Lemma flat_map_ext_in {A B : Type} (f g : A -> list B) (l : list A) :
  (forall a, In a l -> f a = g a) -> flat_map f l = flat_map g l.
Proof.
  induction l as [|x l IH]; intros H; [reflexivity|].
  simpl. rewrite (H x) by now left.
  rewrite IH; [reflexivity|]. intros a Ha. apply H. now right.
Qed.

Section IndexSelection.

Context {A B : Type} (d : A) (G : A -> list B).

(** Keeping the positions below [k] is [firstn]. *)
Lemma select_below_from (l : list A) (s k : nat) :
  flat_map (fun i => if (i <? k)%nat then G (nth (i - s) l d) else [])
           (seq s (length l))
  = flat_map G (firstn (k - s) l).
Proof.
  revert s. induction l as [|x l IH]; intros s.
  - simpl. now rewrite firstn_nil.
  - cbn [length seq flat_map].
    rewrite (flat_map_ext_in
               (fun i => if (i <? k)%nat then G (nth (i - s) (x :: l) d) else [])
               (fun i => if (i <? k)%nat then G (nth (i - S s) l d) else [])).
    2:{ intros i Hi. apply in_seq in Hi.
        replace (i - s)%nat with (S (i - S s)) by lia. reflexivity. }
    rewrite IH, Nat.sub_diag. cbn [nth].
    destruct (Nat.ltb_spec s k) as [Hlt|Hge].
    + replace (k - s)%nat with (S (k - S s)) by lia. reflexivity.
    + replace (k - s)%nat with 0%nat by lia.
      replace (k - S s)%nat with 0%nat by lia. reflexivity.
Qed.

(** Keeping the positions from [k] on is [skipn]. *)
Lemma select_from_from (l : list A) (s k : nat) :
  flat_map (fun i => if (k <=? i)%nat then G (nth (i - s) l d) else [])
           (seq s (length l))
  = flat_map G (skipn (k - s) l).
Proof.
  revert s. induction l as [|x l IH]; intros s.
  - simpl. now rewrite skipn_nil.
  - cbn [length seq flat_map].
    rewrite (flat_map_ext_in
               (fun i => if (k <=? i)%nat then G (nth (i - s) (x :: l) d) else [])
               (fun i => if (k <=? i)%nat then G (nth (i - S s) l d) else [])).
    2:{ intros i Hi. apply in_seq in Hi.
        replace (i - s)%nat with (S (i - S s)) by lia. reflexivity. }
    rewrite IH, Nat.sub_diag. cbn [nth].
    destruct (Nat.leb_spec k s) as [Hle|Hgt].
    + replace (k - s)%nat with 0%nat by lia.
      replace (k - S s)%nat with 0%nat by lia. reflexivity.
    + replace (k - s)%nat with (S (k - S s)) by lia. reflexivity.
Qed.

Lemma select_below (l : list A) (k : nat) :
  flat_map (fun i => if (i <? k)%nat then G (nth i l d) else [])
           (seq 0 (length l))
  = flat_map G (firstn k l).
Proof.
  pose proof (select_below_from l 0 k) as H.
  rewrite Nat.sub_0_r in H. rewrite <- H.
  apply flat_map_ext. intros i. now rewrite Nat.sub_0_r.
Qed.

Lemma select_from (l : list A) (k : nat) :
  flat_map (fun i => if (k <=? i)%nat then G (nth i l d) else [])
           (seq 0 (length l))
  = flat_map G (skipn k l).
Proof.
  pose proof (select_from_from l 0 k) as H.
  rewrite Nat.sub_0_r in H. rewrite <- H.
  apply flat_map_ext. intros i. now rewrite Nat.sub_0_r.
Qed.

Lemma select_all (l : list A) :
  flat_map (fun i => G (nth i l d)) (seq 0 (length l)) = flat_map G l.
Proof. exact (select_from l 0). Qed.

End IndexSelection.

Lemma flat_map_singleton {A : Type} (l : list A) :
  flat_map (fun x => [x]) l = l.
Proof. induction l as [|x l IH]; simpl; congruence. Qed.

Lemma flat_map_id {A : Type} (l : list (list A)) :
  flat_map (fun x => x) l = concat l.
Proof. rewrite flat_map_concat_map. now rewrite map_id. Qed.

Lemma firstn_min_length {A : Type} (k : nat) (l : list A) :
  firstn (Nat.min k (length l)) l = firstn k l.
Proof.
  destruct (Nat.le_ge_cases k (length l)) as [H|H].
  - now rewrite Nat.min_l.
  - rewrite Nat.min_r by exact H. now rewrite !firstn_all2 by lia.
Qed.

(** The slices the sampler takes, for a margin [m >= 0]. *)
Lemma slice_prefix {A : Type} (l : list A) (m : Z) :
  0 <= m -> slice l 0 m = firstn (Z.to_nat m) l.
Proof.
  intros Hm. unfold slice, clamp_index.
  replace (m <? 0) with false by (symmetry; apply Z.ltb_ge; lia).
  cbn [Z.ltb Z.compare Z.to_nat Nat.min skipn].
  rewrite Nat.sub_0_r. apply firstn_min_length.
Qed.

Lemma slice_suffix {A : Type} (l : list A) (m : Z) :
  1 <= m -> slice_from l (- m) = skipn (Z.to_nat (Z.of_nat (length l) - m)) l.
Proof.
  intros Hm. unfold slice_from, clamp_index.
  replace (- m <? 0) with true by (symmetry; apply Z.ltb_lt; lia).
  f_equal. lia.
Qed.

Lemma slice_suffix_zero {A : Type} (l : list A) : slice_from l (- 0) = l.
Proof. reflexivity. Qed.

Lemma slice_prefix_zero {A : Type} (l : list A) : slice l 0 0 = [].
Proof. reflexivity. Qed.

(** The shape of the array of a well-formed image. *)
Lemma np_array_height (img : image) :
  wf_image img -> length (np_array img) = height img.
Proof. intros [H _]. unfold np_array. now rewrite length_map. Qed.

Lemma np_array_width (img : image) :
  wf_image img -> Forall (fun r => length r = width img) (np_array img).
Proof.
  intros [_ H]. unfold np_array. apply Forall_forall. intros r Hr.
  apply in_map_iff in Hr. destruct Hr as [r0 [<- Hin]].
  rewrite length_map. rewrite Forall_forall in H. now apply H.
Qed.

Section Bands.

Variables (a : list (list fpixel)) (h w : nat).
Hypothesis Hh : length a = h.
Hypothesis Hw : Forall (fun r => length r = w) a.

Lemma row_length (i : nat) : (i < h)%nat -> length (nth i a []) = w.
Proof.
  intros Hi. rewrite Forall_forall in Hw. apply Hw, nth_In. lia.
Qed.

(** A selection that only looks at the row index keeps whole rows. *)
Lemma select_rows (rs : nat -> bool) (sel : nat -> nat -> bool) :
  (forall i j, sel i j = rs i) ->
  Spec.select a h w sel
  = flat_map (fun i => if rs i then nth i a [] else []) (seq 0 h).
Proof.
  intros Hsel. unfold Spec.select. apply flat_map_ext_in.
  intros i Hi. apply in_seq in Hi.
  rewrite <- (row_length i) by lia.
  destruct (rs i) eqn:E.
  - rewrite (flat_map_ext_in _ (fun j => [nth j (nth i a []) (0, 0, 0)%Q])).
    + pose proof (select_all (0, 0, 0)%Q (fun x : fpixel => [x])
                             (nth i a [])) as S.
      etransitivity; [exact S | apply flat_map_singleton].
    + intros j _. now rewrite Hsel, E.
  - rewrite (flat_map_ext_in _ (fun _ => [])).
    + induction (seq 0 (length (nth i a []))); simpl; auto.
    + intros j _. now rewrite Hsel, E.
Qed.

(** A selection that only looks at the column index keeps the same
    positions of every row. *)
Lemma select_cols (cs : nat -> bool) (sel : nat -> nat -> bool) :
  (forall i j, sel i j = cs j) ->
  Spec.select a h w sel
  = flat_map (fun r =>
                flat_map (fun j => if cs j then [nth j r (0, 0, 0)%Q] else [])
                         (seq 0 (length r))) a.
Proof.
  intros Hsel. unfold Spec.select.
  pose proof (select_all [] (fun r : list fpixel =>
                flat_map (fun j => if cs j then [nth j r (0, 0, 0)%Q] else [])
                         (seq 0 (length r))) a) as S.
  etransitivity; [|exact S].
  rewrite Hh. apply flat_map_ext_in.
  intros i Hi. apply in_seq in Hi.
  rewrite (row_length i) by lia.
  apply flat_map_ext. intros j. now rewrite Hsel.
Qed.

Lemma top_band (m : Z) :
  Spec.select a h w (Spec.in_top m) = concat (firstn (Z.to_nat m) a).
Proof.
  rewrite (select_rows (fun i => (i <? Z.to_nat m)%nat)).
  - pose proof (select_below [] (fun r : list fpixel => r) a (Z.to_nat m))
      as S.
    rewrite Hh in S. etransitivity; [exact S | apply flat_map_id].
  - intros i j. unfold Spec.in_top.
    destruct (Z.ltb_spec (Z.of_nat i) m), (Nat.ltb_spec i (Z.to_nat m));
      trivial; lia.
Qed.

Lemma bottom_band (m : Z) :
  Spec.select a h w (Spec.in_bottom h m)
  = concat (skipn (Z.to_nat (Z.of_nat h - m)) a).
Proof.
  rewrite (select_rows (fun i => (Z.to_nat (Z.of_nat h - m) <=? i)%nat)).
  - pose proof (select_from [] (fun r : list fpixel => r) a
                            (Z.to_nat (Z.of_nat h - m))) as S.
    rewrite Hh in S. etransitivity; [exact S | apply flat_map_id].
  - intros i j. unfold Spec.in_bottom.
    destruct (Z.leb_spec (Z.of_nat h - m) (Z.of_nat i)),
             (Nat.leb_spec (Z.to_nat (Z.of_nat h - m)) i); trivial; lia.
Qed.

Lemma left_band (m : Z) :
  Spec.select a h w (Spec.in_left m)
  = concat (map (firstn (Z.to_nat m)) a).
Proof.
  rewrite (select_cols (fun j => (j <? Z.to_nat m)%nat)).
  - rewrite flat_map_concat_map. apply (f_equal (@concat fpixel)).
    apply map_ext.
    intros r.
    pose proof (select_below (0, 0, 0)%Q (fun x : fpixel => [x]) r
                             (Z.to_nat m)) as S.
    etransitivity; [exact S | apply flat_map_singleton].
  - intros i j. unfold Spec.in_left.
    destruct (Z.ltb_spec (Z.of_nat j) m), (Nat.ltb_spec j (Z.to_nat m));
      trivial; lia.
Qed.

Lemma right_band (m : Z) :
  Spec.select a h w (Spec.in_right w m)
  = concat (map (skipn (Z.to_nat (Z.of_nat w - m))) a).
Proof.
  rewrite (select_cols (fun j => (Z.to_nat (Z.of_nat w - m) <=? j)%nat)).
  - rewrite flat_map_concat_map. apply (f_equal (@concat fpixel)).
    apply map_ext.
    intros r.
    pose proof (select_from (0, 0, 0)%Q (fun x : fpixel => [x]) r
                            (Z.to_nat (Z.of_nat w - m))) as S.
    etransitivity; [exact S | apply flat_map_singleton].
  - intros i j. unfold Spec.in_right.
    destruct (Z.leb_spec (Z.of_nat w - m) (Z.of_nat j)),
             (Nat.leb_spec (Z.to_nat (Z.of_nat w - m)) j); trivial; lia.
Qed.

(** The strips the code slices out are the four bands, in order. *)
Lemma all_edges_band (m : Z) :
  1 <= m -> all_edges a m = Spec.band_sample a h w m.
Proof.
  intros Hm. unfold all_edges, Spec.band_sample.
  rewrite top_band, bottom_band, left_band, right_band.
  unfold top_edge, bottom_edge, left_edge, right_edge.
  rewrite slice_prefix by lia. rewrite slice_suffix by lia. rewrite Hh.
  f_equal. f_equal. f_equal.
  - f_equal. apply map_ext. intros r. apply slice_prefix. lia.
  - f_equal. apply map_ext_in. intros r Hr.
    rewrite slice_suffix by lia.
    rewrite Forall_forall in Hw. now rewrite (Hw r Hr).
Qed.

(** With a positive margin the sample of a non-empty array starts with
    its first pixel. *)
Lemma all_edges_nonempty (m : Z) :
  1 <= m -> (1 <= h)%nat -> (1 <= w)%nat -> all_edges a m <> [].
Proof.
  intros Hm H1 H2. unfold all_edges, top_edge.
  rewrite slice_prefix by lia.
  destruct a as [|r a']; [simpl in Hh; lia|].
  assert (Hr : length r = w) by (inversion Hw; assumption).
  destruct r as [|p r]; [simpl in Hr; lia|].
  replace (Z.to_nat m) with (S (Z.to_nat m - 1)) by lia.
  simpl. discriminate.
Qed.

End Bands.

(** ** Means *)

Lemma inject_Z_length_succ (n : nat) :
  (inject_Z (Z.of_nat (S n)) == inject_Z (Z.of_nat n) + 1)%Q.
Proof. rewrite Nat2Z.inj_succ. unfold Z.succ. now rewrite inject_Z_plus. Qed.

Lemma inject_Z_length_nonzero {A : Type} (l : list A) :
  l <> [] -> ~ (inject_Z (Z.of_nat (length l)) == 0)%Q.
Proof.
  intros Hl. destruct l; [congruence|].
  unfold Qeq. simpl. lia.
Qed.

Lemma Qsum_const (ch : fpixel -> Q) (v : Q) (l : list fpixel) :
  Forall (fun p => (ch p == v)%Q) l ->
  (Qsum (map ch l) == v * inject_Z (Z.of_nat (length l)))%Q.
Proof.
  induction 1 as [|p l Hp _ IH].
  - simpl. ring.
  - cbn [map Qsum fold_right length].
    change (fold_right Qplus 0%Q (map ch l)) with (Qsum (map ch l)).
    rewrite inject_Z_length_succ, IH, Hp. ring.
Qed.

(** The mean of a non-empty sample of equal values is that value. *)
Lemma chan_mean_const (ch : fpixel -> Q) (v : Q) (l : list fpixel) :
  l <> [] -> Forall (fun p => (ch p == v)%Q) l -> (chan_mean ch l == v)%Q.
Proof.
  intros Hl Hall. unfold chan_mean. rewrite (Qsum_const ch v l Hall).
  field. now apply inject_Z_length_nonzero.
Qed.

(** Every sampled pixel is a pixel of the array. *)
Lemma all_edges_In (a : list (list fpixel)) (m : Z) (p : fpixel) :
  In p (all_edges a m) -> In p (concat a).
Proof.
  unfold all_edges, top_edge, bottom_edge, left_edge, right_edge.
  rewrite !in_app_iff, !in_concat.
  intros [H | [H | [H | H]]].
  - destruct H as [r [Hr Hp]]. exists r. split; [|exact Hp].
    eapply slice_In, Hr.
  - destruct H as [r [Hr Hp]]. exists r. split; [|exact Hp].
    eapply slice_from_In, Hr.
  - destruct H as [r [Hr Hp]]. apply in_map_iff in Hr.
    destruct Hr as [r0 [<- Hr0]]. exists r0. split; [exact Hr0|].
    eapply slice_In, Hp.
  - destruct H as [r [Hr Hp]]. apply in_map_iff in Hr.
    destruct Hr as [r0 [<- Hr0]]. exists r0. split; [exact Hr0|].
    eapply slice_from_In, Hp.
Qed.

Lemma uniform_array_In (c : pixel) (h w : nat) (p : fpixel) :
  In p (concat (np_array (uniform_image c h w))) -> p = to_float c.
Proof.
  unfold np_array, uniform_image. cbn [rows].
  rewrite in_concat. intros [r [Hr Hp]].
  apply in_map_iff in Hr. destruct Hr as [r0 [<- Hr0]].
  apply repeat_spec in Hr0. subst r0.
  apply in_map_iff in Hp. destruct Hp as [q [<- Hq]].
  apply repeat_spec in Hq. now subst q.
Qed.

(** The zero-margin strips. *)
Lemma all_edges_zero (a : list (list fpixel)) :
  top_edge a 0 = [] /\ left_edge a 0 = [] /\
  bottom_edge a 0 = Spec.all_pixels a /\
  right_edge a 0 = Spec.all_pixels a.
Proof.
  unfold top_edge, left_edge, bottom_edge, right_edge, Spec.all_pixels.
  repeat split.
  - induction a as [|r a IH]; [reflexivity|].
    cbn [map concat]. rewrite slice_prefix_zero. exact IH.
  - f_equal. rewrite <- (map_id a) at 2. apply map_ext.
    intros r. apply slice_suffix_zero.
Qed.

End SamplerFacts.

Import Sampler SamplerFacts.

(** The sampled mean of a uniform image is its colour, whatever the
    margin, as long as the sample is not empty. *)
Lemma uniform_sample_mean (r g b : Z) (h w : nat) (m : Z) :
  all_edges (np_array (uniform_image (r, g, b) h w)) m <> [] ->
  color_eq (np_mean (all_edges (np_array (uniform_image (r, g, b) h w)) m))
           (Color (inject_Z r) (inject_Z g) (inject_Z b)).
Proof.
  intros NE.
  assert (U : forall p,
             In p (all_edges (np_array (uniform_image (r, g, b) h w)) m) ->
             p = to_float (r, g, b)).
  { intros p Hp. eapply uniform_array_In, all_edges_In, Hp. }
  destruct (all_edges (np_array (uniform_image (r, g, b) h w)) m)
    as [|p s] eqn:E; [congruence|].
  cbn [np_mean color_eq].
  repeat split; apply chan_mean_const; try discriminate;
    apply Forall_forall; intros q Hq; rewrite (U q Hq); reflexivity.
Qed.

Lemma color_eq_sym (c d : fcolor) : color_eq c d -> color_eq d c.
Proof.
  destruct c, d; simpl; try tauto.
  intros [H1 [H2 H3]]. repeat split; now symmetry.
Qed.

Lemma color_eq_trans (c d e : fcolor) :
  color_eq c d -> color_eq d e -> color_eq c e.
Proof.
  destruct c, d, e; simpl; try tauto.
  intros [H1 [H2 H3]] [H4 [H5 H6]].
  repeat split; etransitivity; eassumption.
Qed.

(** C9.  For a uniform 10 x 10 image and margin 5 percent the margin
    floors to 0; [analyze_background_color] still returns a colour, it is
    the uniform colour exactly, and it is what sampling a 1-pixel margin
    returns. *)
Theorem C9_uniform_10_by_10_margin_5 (r g b : Z) :
  let img := uniform_image (r, g, b) 10 10 in
  Spec.margin (height img) (width img) 5 = 0 /\
  margin_of (height img) (width img) 5 = 0 /\
  exists c,
    analyze_background_color img 5 = Ok c /\
    color_eq c (Color (inject_Z r) (inject_Z g) (inject_Z b)) /\
    color_eq c (np_mean (all_edges (np_array img) 1)).
Proof.
  intros img. split; [reflexivity|]. split; [reflexivity|].
  exists (np_mean (all_edges (np_array img) 0)).
  split; [reflexivity|].
  assert (N0 : all_edges (np_array img) 0 <> []).
  { intros H. apply (f_equal (@length fpixel)) in H.
    vm_compute in H. discriminate H. }
  assert (N1 : all_edges (np_array img) 1 <> []).
  { intros H. apply (f_equal (@length fpixel)) in H.
    vm_compute in H. discriminate H. }
  pose proof (uniform_sample_mean r g b 10 10 0 N0) as M0.
  pose proof (uniform_sample_mean r g b 10 10 1 N1) as M1.
  split; [exact M0|].
  eapply color_eq_trans; [exact M0|]. apply color_eq_sym. exact M1.
Qed.

(* ================================================================== *)
(** * Bounding-box finder: properties *)
(* ================================================================== *)

Module BBoxFacts.

Import BBox.

(** ** Index lists *)

Lemma existsb_nth_iff (r : list bool) :
  existsb (fun b => b) r = true <-> exists j, nth j r false = true.
Proof.
  rewrite existsb_exists. split.
  - intros [x [Hin Hx]]. destruct (In_nth r x false Hin) as [j [_ Hj]].
    exists j. congruence.
  - intros [j Hj]. exists (nth j r false). split; [|exact Hj].
    apply nth_In. destruct (Nat.lt_ge_cases j (length r)) as [H|H]; [exact H|].
    rewrite nth_overflow in Hj by exact H. discriminate.
Qed.

Lemma nth_true_lt (v : list bool) (i : nat) :
  nth i v false = true -> (i < length v)%nat.
Proof.
  intros H. destruct (Nat.lt_ge_cases i (length v)) as [L|L]; [exact L|].
  rewrite nth_overflow in H by exact L. discriminate.
Qed.

Lemma np_where_In (v : list bool) (i : nat) :
  In i (np_where v) <-> nth i v false = true.
Proof.
  unfold np_where. rewrite filter_In, in_seq. split.
  - tauto.
  - intros H. split; [|exact H]. apply nth_true_lt in H. lia.
Qed.

(** The first kept index of an ascending range is the least one. *)
Lemma filter_seq_head (f : nat -> bool) (n s x : nat) (rest : list nat) :
  filter f (seq s n) = x :: rest ->
  forall y, In y (filter f (seq s n)) -> (x <= y)%nat.
Proof.
  revert s. induction n as [|n IH]; intros s E y Hy; [discriminate E|].
  cbn [seq filter] in E, Hy. destruct (f s).
  - injection E as <- _. destruct Hy as [<- | Hy]; [lia|].
    apply filter_In in Hy. destruct Hy as [Hy _]. apply in_seq in Hy. lia.
  - eapply IH; eassumption.
Qed.

(** The last kept index of an ascending range is the greatest one. *)
Lemma filter_seq_last (f : nat -> bool) (n s y : nat) :
  In y (filter f (seq s n)) -> (y <= last (filter f (seq s n)) 0)%nat.
Proof.
  induction n as [|n IH]; intros Hy; [contradiction|].
  rewrite seq_S, filter_app in *. cbn [filter] in *.
  destruct (f (s + n)%nat).
  - rewrite last_last. apply in_app_or in Hy. destruct Hy as [Hy | [<- | []]].
    + apply filter_In in Hy. destruct Hy as [Hy _]. apply in_seq in Hy. lia.
    + lia.
  - rewrite app_nil_r in *. now apply IH.
Qed.

Lemma last_In {A : Type} (l : list A) (d : A) : l <> [] -> In (last l d) l.
Proof.
  intros H. destruct (exists_last H) as [l' [a ->]].
  rewrite last_last. apply in_or_app. right. now left.
Qed.

Lemma np_where_first (v : list bool) (x : nat) (rest : list nat) :
  np_where v = x :: rest ->
  nth x v false = true /\ forall y, nth y v false = true -> (x <= y)%nat.
Proof.
  intros E. split.
  - apply np_where_In. rewrite E. now left.
  - intros y Hy. apply np_where_In in Hy.
    unfold np_where in *. eapply filter_seq_head; eassumption.
Qed.

Lemma np_where_last (v : list bool) :
  np_where v <> [] ->
  nth (last (np_where v) 0%nat) v false = true /\
  forall y, nth y v false = true -> (y <= last (np_where v) 0)%nat.
Proof.
  intros NE. split.
  - apply np_where_In. now apply last_In.
  - intros y Hy. apply np_where_In in Hy.
    unfold np_where in *. now apply filter_seq_last.
Qed.

(** ** The content mask *)

Lemma is_content_height (a : list (list fpixel)) (bg : fcolor) (tol : Q) :
  length (is_content a bg tol) = length a.
Proof. unfold is_content. apply length_map. Qed.

Lemma is_content_width (a : list (list fpixel)) (bg : fcolor) (tol : Q)
      (w : nat) :
  Forall (fun r => length r = w) a ->
  Forall (fun r => length r = w) (is_content a bg tol).
Proof.
  intros H. unfold is_content. apply Forall_forall. intros r Hr.
  apply in_map_iff in Hr. destruct Hr as [r0 [<- Hin]].
  rewrite length_map. rewrite Forall_forall in H. now apply H.
Qed.

Section Mask.

Variables (m : list (list bool)) (h w : nat).
Hypothesis Hh : length m = h.
Hypothesis Hw : Forall (fun r => length r = w) m.

Lemma content_in_range (i j : nat) :
  Spec.content_at m i j -> (i < h)%nat /\ (j < w)%nat.
Proof.
  unfold Spec.content_at. intros H.
  destruct (Nat.lt_ge_cases i (length m)) as [L|L].
  - split; [lia|]. apply nth_true_lt in H.
    rewrite Forall_forall in Hw.
    rewrite (Hw (nth i m [])) in H by now apply nth_In.
    exact H.
  - rewrite (nth_overflow m [] L) in H. destruct j; discriminate H.
Qed.

Lemma any_flag :
  np_any m = true <->
  exists i j, (i < h)%nat /\ (j < w)%nat /\ Spec.content_at m i j.
Proof.
  unfold np_any. rewrite existsb_exists. split.
  - intros [r [Hin Hr]]. apply existsb_nth_iff in Hr. destruct Hr as [j Hj].
    destruct (In_nth m r [] Hin) as [i [_ Hi]].
    assert (C : Spec.content_at m i j)
      by (unfold Spec.content_at; now rewrite Hi).
    exists i, j. destruct (content_in_range i j C). tauto.
  - intros [i [j [Hi [_ C]]]]. exists (nth i m []). split.
    + apply nth_In. lia.
    + apply existsb_nth_iff. now exists j.
Qed.

Lemma rows_flag (i : nat) :
  nth i (np_any_axis1 m) false = true <-> Spec.row_bearing m w i.
Proof.
  unfold np_any_axis1.
  change false with (existsb (fun b : bool => b) []) at 1.
  rewrite map_nth, existsb_nth_iff. unfold Spec.row_bearing. split.
  - intros [j Hj]. exists j. split; [|exact Hj].
    now destruct (content_in_range i j Hj).
  - intros [j [_ Hj]]. now exists j.
Qed.

Lemma cols_flag (j : nat) :
  nth j (np_any_axis0 w m) false = true <-> Spec.col_bearing m h j.
Proof.
  unfold np_any_axis0, Spec.col_bearing. split.
  - intros H. pose proof (nth_true_lt _ _ H) as L.
    rewrite length_map, length_seq in L.
    rewrite (nth_indep _ false
               (existsb (fun r : list bool => nth 0 r false) m)) in H
      by now rewrite length_map, length_seq.
    rewrite (map_nth (fun j => existsb (fun r => nth j r false) m)) in H.
    rewrite seq_nth in H by exact L. simpl in H.
    apply existsb_exists in H. destruct H as [r [Hin Hr]].
    destruct (In_nth m r [] Hin) as [i [Hi E]].
    exists i. split; [lia|]. unfold Spec.content_at. now rewrite E.
  - intros [i [Hi C]].
    destruct (content_in_range i j C) as [_ L].
    rewrite (nth_indep _ false
               (existsb (fun r : list bool => nth 0 r false) m))
      by now rewrite length_map, length_seq.
    rewrite (map_nth (fun j => existsb (fun r => nth j r false) m)).
    rewrite seq_nth by exact L. simpl.
    apply existsb_exists. exists (nth i m []). split; [|exact C].
    apply nth_In. lia.
Qed.

End Mask.

End BBoxFacts.

Import BBox BBoxFacts.

(** For a tolerance that is not negative, a pixel is content exactly when
    its squared distance to the background exceeds the squared tolerance,
    that is, when its Euclidean distance exceeds the tolerance. *)
Lemma color_diff_exceeds_iff (bg_r bg_g bg_b tolerance : Q) (p : fpixel) :
  (0 <= tolerance)%Q ->
  color_diff_exceeds (Color bg_r bg_g bg_b) tolerance p = true <->
  (tolerance * tolerance <
   (chan_r p - bg_r) ^ 2 + (chan_g p - bg_g) ^ 2 + (chan_b p - bg_b) ^ 2)%Q.
Proof.
  intros Ht. unfold color_diff_exceeds.
  rewrite orb_true_iff, !Qlt_bool_iff. split.
  - intros [H | H]; [|exact H]. exfalso. exact (Qlt_not_le _ _ H Ht).
  - intros H. now right.
Qed.

(** When no pixel is content the finder falls back to the full image. *)
Lemma no_content_full_bounds (img : image) (marginPercent tolerance : Q)
      (bg : fcolor) :
  analyze_background_color img marginPercent = Ok bg ->
  Forall (fun p => color_diff_exceeds bg tolerance p = false)
         (concat (np_array img)) ->
  find_content_bbox img marginPercent tolerance
  = Ok (0, 0, width img, height img)%nat.
Proof.
  intros Hbg Hall. unfold find_content_bbox. rewrite Hbg.
  cbv beta iota delta [bind].
  assert (N : np_any (is_content (np_array img) bg tolerance) = false).
  { destruct (np_any _) eqn:E; [|reflexivity]. exfalso.
    unfold np_any in E. apply existsb_exists in E.
    destruct E as [r [Hr Hb]]. apply existsb_exists in Hb.
    destruct Hb as [x [Hx ->]].
    unfold is_content in Hr. apply in_map_iff in Hr.
    destruct Hr as [r0 [<- Hr0]]. apply in_map_iff in Hx.
    destruct Hx as [p [Hp Hin]].
    rewrite Forall_forall in Hall.
    rewrite Hall in Hp; [discriminate Hp|].
    apply in_concat. exists r0. now split. }
  rewrite N. reflexivity.
Qed.

(** C5.  When no pixel's distance to the sampled background colour
    exceeds the tolerance, [find_content_bbox] returns the full image
    bounds (0, 0, width, height), as a value and not as an error. *)
Theorem C5_no_content_returns_full_image (img : image)
        (marginPercent tolerance : Q) (bg : fcolor) :
  analyze_background_color img marginPercent = Ok bg ->
  Forall (fun p => color_diff_exceeds bg tolerance p = false)
         (concat (np_array img)) ->
  find_content_bbox img marginPercent tolerance
  = Ok (0, 0, width img, height img)%nat.
Proof. apply no_content_full_bounds. Qed.

Lemma C5_witness :
  let img := uniform_image (5, 6, 7) 2 3 in
  exists bg,
    analyze_background_color img 5 = Ok bg /\
    Forall (fun p => color_diff_exceeds bg 20 p = false)
           (concat (np_array img)) /\
    find_content_bbox img 5 20 = Ok (0, 0, 3, 2)%nat.
Proof.
  intros img.
  exists (np_mean (all_edges (np_array img) 0)).
  assert (H1 : analyze_background_color img 5
               = Ok (np_mean (all_edges (np_array img) 0))) by reflexivity.
  assert (H2 : Forall (fun p => color_diff_exceeds
                                  (np_mean (all_edges (np_array img) 0)) 20 p
                                = false)
                      (concat (np_array img))).
  { vm_compute. repeat constructor. }
  split; [exact H1|]. split; [exact H2|].
  exact (C5_no_content_returns_full_image img 5 20 _ H1 H2).
Defined.

(** A uniform image has no content for any tolerance that is not
    negative, so the finder returns its full bounds. *)
Lemma uniform_image_full_bounds (r g b : Z) (h w : nat)
      (marginPercent tolerance : Q) :
  (0 <= tolerance)%Q ->
  find_content_bbox (uniform_image (r, g, b) h w) marginPercent tolerance
  = Ok (0, 0, w, h)%nat.
Proof.
  intros Ht.
  set (img := uniform_image (r, g, b) h w).
  set (m := margin_of (height img) (width img) marginPercent).
  apply (no_content_full_bounds img marginPercent tolerance
           (np_mean (all_edges (np_array img) m))); [reflexivity|].
  apply Forall_forall. intros p Hp.
  apply uniform_array_In in Hp. subst p.
  destruct (all_edges (np_array img) m) as [|q s] eqn:E.
  - reflexivity.
  - assert (NE : all_edges (np_array img) m <> []) by (rewrite E; discriminate).
    pose proof (uniform_sample_mean r g b h w m NE) as M.
    fold img in M. rewrite E in M. cbn [np_mean color_eq] in M.
    destruct M as [Mr [Mg Mb]].
    cbn [np_mean]. unfold color_diff_exceeds.
    apply orb_false_iff. split.
    + unfold Qlt_bool. apply negb_false_iff. now apply Qle_bool_iff.
    + unfold Qlt_bool. apply negb_false_iff. apply Qle_bool_iff.
      rewrite Mr, Mg, Mb. unfold to_float, chan_r, chan_g, chan_b. cbn [fst snd].
      assert (Z0 : ((inject_Z r - inject_Z r) ^ 2 +
                    (inject_Z g - inject_Z g) ^ 2 +
                    (inject_Z b - inject_Z b) ^ 2 == 0)%Q) by ring.
      rewrite Z0. apply Qmult_le_0_compat; exact Ht.
Qed.



(** ** Degenerate inputs *)

Lemma degenerate_array_empty (img : image) :
  wf_image img -> (width img = 0 \/ height img = 0)%nat ->
  concat (np_array img) = [].
Proof.
  intros Hwf Hz. pose proof (np_array_height img Hwf) as Ah.
  pose proof (np_array_width img Hwf) as Aw.
  destruct Hz as [Hz | Hz].
  - apply concat_nil_Forall. rewrite Hz in Aw.
    eapply Forall_impl; [|exact Aw]. intros r Hr.
    now apply length_zero_iff_nil.
  - rewrite Hz in Ah. apply length_zero_iff_nil in Ah. now rewrite Ah.
Qed.

Lemma all_edges_of_empty (a : list (list fpixel)) (m : Z) :
  concat a = [] -> all_edges a m = [].
Proof.
  intros H. destruct (all_edges a m) as [|p s] eqn:E; [reflexivity|].
  exfalso. assert (In p (concat a)).
  { apply (all_edges_In a m). rewrite E. now left. }
  rewrite H in *. contradiction.
Qed.

(** C8 fails as stated: on the zero-size image the sampler returns NaN
    and the finder returns the (empty) full bounds; neither raises. *)
Lemma C8_counterexample :
  wf_image empty_image /\
  analyze_background_color empty_image 5 = Ok NaN /\
  find_content_bbox empty_image 5 20 = Ok (0, 0, 0, 0)%nat /\
  ~ raises (analyze_background_color empty_image 5) /\
  ~ raises (find_content_bbox empty_image 5 20).
Proof.
  split; [split; [reflexivity|constructor]|].
  split; [reflexivity|]. split; [reflexivity|].
  split; intros [e H]; vm_compute in H; discriminate H.
Qed.

(** C8, amended.  A zero-size image makes neither the sampler nor the
    finder raise: the sampler returns the NaN mean of an empty sample and
    the finder returns the full bounds (0, 0, width, height).  A crop whose
    sides are both zero makes [create_icon_from_cropped] raise
    ZeroDivisionError when it computes the scale, before any image is
    built. *)
Theorem C8_degenerate_inputs
        (resize : image -> Z -> Z -> image) (img : image)
        (marginPercent tolerance : Q) (bg_color : fcolor)
        (icon_size : Z) (scale_up : Q) :
  wf_image img ->
  (width img = 0 \/ height img = 0)%nat ->
  analyze_background_color img marginPercent = Ok NaN /\
  find_content_bbox img marginPercent tolerance
    = Ok (0, 0, width img, height img)%nat /\
  (width img = 0%nat -> height img = 0%nat ->
   create_icon_from_cropped resize img bg_color icon_size scale_up
     = Raise ZeroDivisionError).
Proof.
  intros Hwf Hz.
  pose proof (degenerate_array_empty img Hwf Hz) as E.
  assert (S : analyze_background_color img marginPercent = Ok NaN).
  { unfold analyze_background_color.
    now rewrite (all_edges_of_empty _ _ E). }
  split; [exact S|]. split.
  - apply (no_content_full_bounds img marginPercent tolerance NaN S).
    rewrite E. constructor.
  - intros Hw Hh. unfold create_icon_from_cropped, scaled_size.
    rewrite Hw, Hh. reflexivity.
Qed.

Lemma C8_witness :
  wf_image empty_image /\
  (width empty_image = 0 \/ height empty_image = 0)%nat /\
  analyze_background_color empty_image 5 = Ok NaN /\
  find_content_bbox empty_image 5 20 = Ok (0, 0, 0, 0)%nat /\
  create_icon_from_cropped resize_nearest empty_image (Color 0 0 0) 16 1
    = Raise ZeroDivisionError.
Proof.
  assert (H0 : wf_image empty_image) by (split; [reflexivity|constructor]).
  assert (H1 : (width empty_image = 0 \/ height empty_image = 0)%nat)
    by (left; reflexivity).
  destruct (C8_degenerate_inputs resize_nearest empty_image 5 20
                                 (Color 0 0 0) 16 1 H0 H1) as [A [B C]].
  split; [exact H0|]. split; [exact H1|]. split; [exact A|].
  split; [exact B|]. apply C; reflexivity.
Defined.

(* ================================================================== *)
(** * Further properties of the compositor *)
(* ================================================================== *)

Module RoundFacts.

Lemma round_ge_floor (x : Q) : Qfloor x <= Py.round x.
Proof.
  unfold Py.round.
  destruct (Qcompare _ _); [destruct (Z.even _)| |]; lia.
Qed.

Lemma round_le_floor_succ (x : Q) : Py.round x <= Qfloor x + 1.
Proof.
  unfold Py.round.
  destruct (Qcompare _ _); [destruct (Z.even _)| |]; lia.
Qed.

(** [round] is monotone. *)
Lemma round_mono (x y : Q) : (x <= y)%Q -> Py.round x <= Py.round y.
Proof.
  intros H. pose proof (Qfloor_resp_le x y H) as F.
  destruct (Z.eq_dec (Qfloor x) (Qfloor y)) as [E|N].
  - unfold Py.round. rewrite E.
    destruct (Qcompare_spec (x - inject_Z (Qfloor y)) (1 # 2)) as [Hx|Hx|Hx],
             (Qcompare_spec (y - inject_Z (Qfloor y)) (1 # 2)) as [Hy|Hy|Hy];
      try (exfalso; lra); try destruct (Z.even (Qfloor y)); lia.
  - pose proof (round_le_floor_succ x). pose proof (round_ge_floor y). lia.
Qed.

Lemma round_nonpos (x : Q) : (x <= 0)%Q -> Py.round x <= 0.
Proof.
  intros H. apply round_mono in H.
  change 0%Q with (inject_Z 0) in H. now rewrite round_inject_Z in H.
Qed.

End RoundFacts.

Import RoundFacts.

(** The scaled sizes in terms of the scale factor. *)
Lemma scaled_size_unfold (cropped : image) (icon_size : Z) (scale_up : Q) :
  (1 <= width cropped)%nat -> (1 <= height cropped)%nat ->
  let w := Z.of_nat (width cropped) in
  let h := Z.of_nat (height cropped) in
  let scale := (inject_Z icon_size * scale_up / inject_Z (Z.max w h))%Q in
  scaled_size cropped icon_size scale_up
  = Ok (Z.max 1 (Py.round (inject_Z w * scale)),
        Z.max 1 (Py.round (inject_Z h * scale))).
Proof.
  intros Hw Hh. unfold scaled_size.
  rewrite truediv_nonzero by lia. reflexivity.
Qed.

(** The icon a successful call returns. *)
Lemma create_icon_ok (resize : image -> Z -> Z -> image) (cropped : image)
      (r g b : Q) (icon_size : Z) (scale_up : Q) (new_w new_h : Z) :
  0 <= icon_size ->
  scaled_size cropped icon_size scale_up = Ok (new_w, new_h) ->
  create_icon_from_cropped resize cropped (Color r g b) icon_size scale_up
  = Ok (paste (uniform_image
                 (clip8_pixel (int_of_float r, int_of_float g, int_of_float b))
                 (Z.to_nat icon_size) (Z.to_nat icon_size))
              (resize cropped new_w new_h)
              (center_offset icon_size new_w)
              (center_offset icon_size new_h)).
Proof.
  intros Ht E. unfold create_icon_from_cropped. rewrite E.
  cbv beta iota delta [bind new_canvas bg_tuple_of].
  rewrite Image_new_ok by exact Ht. reflexivity.
Qed.

Lemma pixel_atZ_inside (img : image) (i j : Z) :
  wf_image img ->
  0 <= i < Z.of_nat (height img) -> 0 <= j < Z.of_nat (width img) ->
  exists q, pixel_atZ img i j = Some q.
Proof.
  intros [Hh Hw] Hi Hj. unfold pixel_atZ, pixel_at.
  replace (i <? 0) with false by (symmetry; apply Z.ltb_ge; lia).
  replace (j <? 0) with false by (symmetry; apply Z.ltb_ge; lia).
  cbn [orb].
  destruct (nth_error (rows img) (Z.to_nat i)) as [row|] eqn:E.
  - assert (L : length row = width img).
    { rewrite Forall_forall in Hw. apply Hw. eapply nth_error_In, E. }
    destruct (nth_error row (Z.to_nat j)) as [q|] eqn:E2; [now exists q|].
    apply nth_error_None in E2. lia.
  - apply nth_error_None in E. lia.
Qed.

Lemma pixel_at_inside (img : image) (i j : nat) (q : pixel) :
  wf_image img -> pixel_at img i j = Some q ->
  (i < height img)%nat /\ (j < width img)%nat.
Proof.
  intros [Hh Hw] H. unfold pixel_at in H.
  destruct (nth_error (rows img) i) as [row|] eqn:E; [|discriminate].
  assert (L : length row = width img).
  { rewrite Forall_forall in Hw. apply Hw. eapply nth_error_In, E. }
  split.
  - rewrite <- Hh. apply nth_error_Some. congruence.
  - rewrite <- L. apply nth_error_Some. congruence.
Qed.

Lemma inject_Z_pos (z : Z) : 0 < z -> (0 < inject_Z z)%Q.
Proof. intros H. change 0%Q with (inject_Z 0). now rewrite <- Zlt_Qlt. Qed.

(** A side [a] below the longer side [m] is scaled to no more than the
    longer side, which is scaled to [round ts]. *)
Lemma scaled_side_le (ts : Q) (a m : Z) :
  1 <= a -> a <= m ->
  Py.round (inject_Z m * (ts / inject_Z m)) = Py.round ts /\
  Z.max 1 (Py.round (inject_Z a * (ts / inject_Z m)))
  <= Z.max 1 (Py.round ts).
Proof.
  intros Ha Ham.
  assert (Mpos : (0 < inject_Z m)%Q) by (apply inject_Z_pos; lia).
  assert (Apos : (0 < inject_Z a)%Q) by (apply inject_Z_pos; lia).
  assert (Am : (inject_Z a <= inject_Z m)%Q) by (rewrite <- Zle_Qle; lia).
  assert (Em : (inject_Z m * (ts / inject_Z m) == ts)%Q) by (field; lra).
  split; [now rewrite Em|].
  destruct (Qlt_le_dec ts 0) as [Neg|Pos].
  - assert (S0 : (ts / inject_Z m <= 0)%Q).
    { apply Qle_shift_div_r; [exact Mpos|lra]. }
    assert (P0 : (inject_Z a * (ts / inject_Z m) <= 0)%Q) by nra.
    apply round_nonpos in P0. lia.
  - assert (S0 : (0 <= ts / inject_Z m)%Q).
    { apply Qle_shift_div_l; [exact Mpos|lra]. }
    assert (P0 : (inject_Z a * (ts / inject_Z m) <= ts)%Q).
    { rewrite <- Em at 2. apply Qmult_le_compat_r; assumption. }
    apply round_mono in P0. lia.
Qed.

Lemma scaled_sides_Z (ts : Q) (w h : Z) :
  1 <= w -> 1 <= h ->
  let scale := (ts / inject_Z (Z.max w h))%Q in
  let new_w := Z.max 1 (Py.round (inject_Z w * scale)) in
  let new_h := Z.max 1 (Py.round (inject_Z h * scale)) in
  Z.max new_w new_h = Z.max 1 (Py.round ts) /\
  (w <= h -> new_w <= new_h) /\
  (h <= w -> new_h <= new_w).
Proof.
  intros Hw Hh scale new_w new_h. subst scale new_w new_h.
  destruct (Z.le_ge_cases w h) as [L|L].
  - replace (Z.max w h) with h by lia.
    destruct (scaled_side_le ts w h Hw L) as [_ K1].
    destruct (scaled_side_le ts h h Hh (Z.le_refl h)) as [K2 _].
    rewrite K2 in *. split; [lia|]. split; intros H; [lia|].
    assert (w = h) by lia. subst w. rewrite K2. lia.
  - replace (Z.max w h) with w by lia.
    destruct (scaled_side_le ts h w Hh ltac:(lia)) as [_ K1].
    destruct (scaled_side_le ts w w Hw (Z.le_refl w)) as [K2 _].
    rewrite K2 in *. split; [lia|]. split; intros H; [|lia].
    assert (h = w) by lia. subst h. rewrite K2. lia.
Qed.

Lemma pixel_atZ_of_nat (img : image) (i j : nat) :
  pixel_atZ img (Z.of_nat i) (Z.of_nat j) = pixel_at img i j.
Proof.
  unfold pixel_atZ.
  replace (Z.of_nat i <? 0) with false by (symmetry; apply Z.ltb_ge; lia).
  replace (Z.of_nat j <? 0) with false by (symmetry; apply Z.ltb_ge; lia).
  cbn [orb]. now rewrite !Nat2Z.id.
Qed.

Lemma square_cover
      (resize : image -> Z -> Z -> image) (cropped : image) (r g b : Q)
      (icon_size : Z) (scale_up : Q) :
  resize_ok resize ->
  width cropped = height cropped ->
  (1 <= width cropped)%nat ->
  0 < icon_size ->
  (1 <= scale_up)%Q ->
  exists icon new_dim,
    create_icon_from_cropped resize cropped (Color r g b) icon_size scale_up
      = Ok icon /\
    scaled_size cropped icon_size scale_up = Ok (new_dim, new_dim) /\
    icon_size <= new_dim /\
    center_offset icon_size new_dim <= 0 /\
    forall i j, (i < Z.to_nat icon_size)%nat -> (j < Z.to_nat icon_size)%nat ->
      exists q,
        pixel_atZ (resize cropped new_dim new_dim)
                  (Z.of_nat i - center_offset icon_size new_dim)
                  (Z.of_nat j - center_offset icon_size new_dim) = Some q /\
        pixel_at icon i j = Some q.
Proof.
  intros Hres Hsq Hw Ht Hs.
  assert (Hh : (1 <= height cropped)%nat) by lia.
  pose proof (scaled_size_unfold cropped icon_size scale_up Hw Hh) as E.
  cbv zeta in E. rewrite <- Hsq in E. rewrite Z.max_id in E.
  set (w := Z.of_nat (width cropped)) in *.
  set (ts := (inject_Z icon_size * scale_up)%Q) in *.
  destruct (scaled_side_le ts w w ltac:(lia) (Z.le_refl w)) as [K _].
  rewrite K in E.
  set (n := Z.max 1 (Py.round ts)) in *.
  assert (Tpos : (0 < inject_Z icon_size)%Q) by now apply inject_Z_pos.
  assert (Hts : (inject_Z icon_size <= ts)%Q) by (subst ts; nra).
  apply round_mono in Hts. rewrite round_inject_Z in Hts.
  assert (Hn : icon_size <= n) by lia.
  assert (Hoff : center_offset icon_size n <= 0).
  { unfold center_offset, floordiv.
    apply Z.div_le_upper_bound; lia. }
  assert (Hlow : icon_size - n <= 2 * center_offset icon_size n + 1).
  { unfold center_offset, floordiv.
    pose proof (Z.div_mod (icon_size - n) 2 ltac:(lia)).
    pose proof (Z.mod_pos_bound (icon_size - n) 2 ltac:(lia)). lia. }
  destruct (Hres cropped n n ltac:(lia) ltac:(lia)) as [Rwf [Rw Rh]].
  eexists. exists n. split.
  { apply (create_icon_ok resize cropped r g b icon_size scale_up n n);
      [lia|exact E]. }
  split; [exact E|]. split; [exact Hn|]. split; [exact Hoff|].
  intros i j Hi Hj.
  destruct (pixel_atZ_inside (resize cropped n n)
              (Z.of_nat i - center_offset icon_size n)
              (Z.of_nat j - center_offset icon_size n) Rwf) as [q Hq].
  { rewrite Rh. lia. }
  { rewrite Rw. lia. }
  exists q. split; [exact Hq|].
  erewrite paste_pixel_at by (apply uniform_image_pixel_at; eassumption).
  now rewrite Hq.
Qed.

(** With a square crop and a scale-up factor of at least 1 the resized
    content is at least as large as the canvas and covers it: every pixel
    of the icon is a pixel of the resized content, and the background
    colour shows nowhere. *)
Theorem square_crop_covers_canvas
        (resize : image -> Z -> Z -> image) (cropped : image) (r g b : Q)
        (icon_size : Z) (scale_up : Q) :
  resize_ok resize ->
  width cropped = height cropped ->
  (1 <= width cropped)%nat ->
  0 < icon_size ->
  (1 <= scale_up)%Q ->
  exists icon new_dim,
    create_icon_from_cropped resize cropped (Color r g b) icon_size scale_up
      = Ok icon /\
    scaled_size cropped icon_size scale_up = Ok (new_dim, new_dim) /\
    icon_size <= new_dim /\
    center_offset icon_size new_dim <= 0 /\
    forall i j, (i < Z.to_nat icon_size)%nat -> (j < Z.to_nat icon_size)%nat ->
      exists q,
        pixel_atZ (resize cropped new_dim new_dim)
                  (Z.of_nat i - center_offset icon_size new_dim)
                  (Z.of_nat j - center_offset icon_size new_dim) = Some q /\
        pixel_at icon i j = Some q.
Proof. apply square_cover. Qed.

Lemma resize_nearest_ok : resize_ok resize_nearest.
Proof.
  intros img w h Hw Hh. unfold resize_nearest, wf_image. cbn [rows width height].
  split; [split|split; reflexivity].
  - now rewrite length_map, length_seq.
  - apply Forall_forall. intros row Hrow. apply in_map_iff in Hrow.
    destruct Hrow as [i [<- _]]. now rewrite length_map, length_seq.
Qed.

Lemma square_crop_covers_canvas_witness :
  let cropped := uniform_image (1, 2, 3) 2 2 in
  resize_ok resize_nearest /\ width cropped = height cropped /\
  (1 <= width cropped)%nat /\ 0 < 16 /\ (1 <= 115 # 100)%Q /\
  exists icon new_dim,
    create_icon_from_cropped resize_nearest cropped (Color 9 9 9) 16 (115 # 100)
      = Ok icon /\
    scaled_size cropped 16 (115 # 100) = Ok (new_dim, new_dim) /\
    16 <= new_dim.
Proof.
  intros cropped.
  assert (H1 : width cropped = height cropped) by reflexivity.
  assert (H2 : (1 <= width cropped)%nat) by (simpl; lia).
  assert (H3 : 0 < 16) by lia.
  assert (H4 : (1 <= 115 # 100)%Q) by (unfold Qle; simpl; lia).
  split; [exact resize_nearest_ok|]. split; [exact H1|]. split; [exact H2|].
  split; [exact H3|]. split; [exact H4|].
  destruct (square_crop_covers_canvas resize_nearest cropped 9 9 9 16
              (115 # 100) resize_nearest_ok H1 H2 H3 H4)
    as [icon [n [E [S [L _]]]]].
  exists icon, n. split; [exact E|]. split; [exact S|exact L].
Defined.

(** With a scale-up factor of at most 1 the resized content fits the
    canvas: both sides are at most the icon size, both paste offsets are
    non-negative, the margins on opposite sides differ by at most one
    pixel, and every pixel of the resized content appears in the icon at
    its position shifted by the offsets; nothing is clipped. *)
Theorem content_fits_without_scale_up
        (resize : image -> Z -> Z -> image) (cropped : image) (r g b : Q)
        (icon_size : Z) (scale_up : Q) :
  resize_ok resize ->
  (1 <= width cropped)%nat ->
  (1 <= height cropped)%nat ->
  0 < icon_size ->
  (scale_up <= 1)%Q ->
  exists icon new_w new_h,
    create_icon_from_cropped resize cropped (Color r g b) icon_size scale_up
      = Ok icon /\
    scaled_size cropped icon_size scale_up = Ok (new_w, new_h) /\
    1 <= new_w <= icon_size /\
    1 <= new_h <= icon_size /\
    let x := center_offset icon_size new_w in
    let y := center_offset icon_size new_h in
    0 <= x /\ x <= icon_size - new_w - x <= x + 1 /\
    0 <= y /\ y <= icon_size - new_h - y <= y + 1 /\
    forall i j q,
      pixel_at (resize cropped new_w new_h) i j = Some q ->
      pixel_at icon (i + Z.to_nat y) (j + Z.to_nat x) = Some q.
Proof.
  intros Hres Hw Hh Ht Hs.
  pose proof (scaled_size_unfold cropped icon_size scale_up Hw Hh) as E.
  cbv zeta in E.
  destruct (scaled_sides_Z (inject_Z icon_size * scale_up)
                           (Z.of_nat (width cropped))
                           (Z.of_nat (height cropped))
                           ltac:(lia) ltac:(lia)) as [M _].
  cbv zeta in M.
  set (nw := Z.max 1 (Py.round _)) in E, M.
  set (nh := Z.max 1 (Py.round _)) in E, M.
  assert (Tpos : (0 < inject_Z icon_size)%Q) by now apply inject_Z_pos.
  assert (Hts : (inject_Z icon_size * scale_up <= inject_Z icon_size)%Q) by nra.
  apply round_mono in Hts. rewrite round_inject_Z in Hts.
  assert (Bw : 1 <= nw <= icon_size) by lia.
  assert (Bh : 1 <= nh <= icon_size) by lia.
  assert (Off : forall n, 1 <= n <= icon_size ->
                  0 <= center_offset icon_size n /\
                  center_offset icon_size n
                  <= icon_size - n - center_offset icon_size n
                  <= center_offset icon_size n + 1).
  { intros n Hn. unfold center_offset, floordiv.
    pose proof (Z.div_mod (icon_size - n) 2 ltac:(lia)).
    pose proof (Z.mod_pos_bound (icon_size - n) 2 ltac:(lia)).
    assert (0 <= (icon_size - n) / 2) by (apply Z.div_pos; lia). lia. }
  destruct (Off nw Bw) as [X0 X1]. destruct (Off nh Bh) as [Y0 Y1].
  destruct (Hres cropped nw nh ltac:(lia) ltac:(lia)) as [Rwf [Rw Rh]].
  eexists. exists nw, nh. split.
  { apply (create_icon_ok resize cropped r g b icon_size scale_up nw nh);
      [lia|exact E]. }
  split; [exact E|]. split; [exact Bw|]. split; [exact Bh|].
  cbv zeta. split; [exact X0|]. split; [exact X1|].
  split; [exact Y0|]. split; [exact Y1|].
  intros i j q Hq.
  destruct (pixel_at_inside _ _ _ _ Rwf Hq) as [Hi Hj].
  rewrite Rh in Hi. rewrite Rw in Hj.
  erewrite paste_pixel_at
    by (apply uniform_image_pixel_at; lia).
  replace (Z.of_nat (i + Z.to_nat (center_offset icon_size nh))
           - center_offset icon_size nh) with (Z.of_nat i) by lia.
  replace (Z.of_nat (j + Z.to_nat (center_offset icon_size nw))
           - center_offset icon_size nw) with (Z.of_nat j) by lia.
  now rewrite pixel_atZ_of_nat, Hq.
Qed.

Lemma content_fits_without_scale_up_witness :
  resize_ok resize_nearest /\
  (1 <= width dot_image)%nat /\ (1 <= height dot_image)%nat /\
  0 < 16 /\ (1 <= 1)%Q /\
  exists icon new_w new_h,
    create_icon_from_cropped resize_nearest dot_image (Color 9 9 9) 16 1
      = Ok icon /\
    scaled_size dot_image 16 1 = Ok (new_w, new_h) /\
    1 <= new_w <= 16 /\ 1 <= new_h <= 16.
Proof.
  assert (H1 : (1 <= width dot_image)%nat) by (simpl; lia).
  assert (H2 : (1 <= height dot_image)%nat) by (simpl; lia).
  assert (H3 : 0 < 16) by lia.
  assert (H4 : (1 <= 1)%Q) by (unfold Qle; simpl; lia).
  split; [exact resize_nearest_ok|]. split; [exact H1|]. split; [exact H2|].
  split; [exact H3|]. split; [exact H4|].
  destruct (content_fits_without_scale_up resize_nearest dot_image 9 9 9 16 1
              resize_nearest_ok H1 H2 H3 H4)
    as [icon [nw [nh [E [S [Bw [Bh _]]]]]]].
  exists icon, nw, nh. repeat (split; [assumption|]). exact Bh.
Defined.

(* ================================================================== *)
(** * Further properties of the background sampler *)
(* ================================================================== *)

Lemma int_of_float_nonneg (x : Q) : (0 <= x)%Q -> 0 <= int_of_float x.
Proof.
  intros H. unfold int_of_float. apply Z.quot_pos; [|lia].
  unfold Qle in H. simpl in H. lia.
Qed.

Lemma margin_of_nonneg (h w : nat) (p : Q) :
  (0 <= p)%Q -> 0 <= margin_of h w p.
Proof.
  intros Hp. unfold margin_of. apply int_of_float_nonneg.
  assert (N : (0 <= inject_Z (Z.of_nat (Nat.min h w)))%Q).
  { change 0%Q with (inject_Z 0). rewrite <- Zle_Qle. lia. }
  apply Qle_shift_div_l; [reflexivity|].
  rewrite Qmult_0_l. now apply Qmult_le_0_compat.
Qed.

(** For a margin that is not negative the sample of a non-empty image is
    not empty. *)
Lemma sample_nonempty (img : image) (m : Z) :
  wf_image img -> (1 <= height img)%nat -> (1 <= width img)%nat ->
  0 <= m -> all_edges (np_array img) m <> [].
Proof.
  intros Hwf Hh Hw Hm.
  pose proof (np_array_height img Hwf) as Ah.
  pose proof (np_array_width img Hwf) as Aw.
  destruct (Z.eq_dec m 0) as [->|Hne].
  - destruct (all_edges_zero (np_array img)) as [_ [_ [B _]]].
    unfold all_edges. rewrite B. unfold Spec.all_pixels.
    destruct (np_array img) as [|r0 a']; [simpl in Ah; lia|].
    assert (Hr : length r0 = width img) by (inversion Aw; assumption).
    destruct r0; [simpl in Hr; lia|].
    destruct (top_edge _ 0); discriminate.
  - apply (all_edges_nonempty (np_array img) (height img) (width img));
      try assumption; lia.
Qed.







(* ================================================================== *)
(** * Further properties of the bounding-box finder *)
(* ================================================================== *)

Lemma mask_shape (img : image) (bg : fcolor) (tol : Q) :
  wf_image img ->
  length (is_content (np_array img) bg tol) = height img /\
  Forall (fun r => length r = width img) (is_content (np_array img) bg tol).
Proof.
  intros Hwf. split.
  - rewrite is_content_height. now apply np_array_height.
  - apply is_content_width. now apply np_array_width.
Qed.


(** With content both index lists are non-empty and give the box. *)
Lemma find_content_bbox_content (img : image) (mp tol : Q) (bg : fcolor) :
  wf_image img ->
  analyze_background_color img mp = Ok bg ->
  np_any (is_content (np_array img) bg tol) = true ->
  exists top rrest lft crest,
    np_where (np_any_axis1 (is_content (np_array img) bg tol)) = top :: rrest /\
    np_where (np_any_axis0 (width img) (is_content (np_array img) bg tol))
      = lft :: crest /\
    find_content_bbox img mp tol
    = Ok (lft, top, last (lft :: crest) 0 + 1, last (top :: rrest) 0 + 1)%nat.
Proof.
  intros Hwf Hbg A.
  set (mask := is_content (np_array img) bg tol) in *.
  destruct (mask_shape img bg tol Hwf) as [Mh Mw]. fold mask in Mh, Mw.
  destruct (proj1 (any_flag mask _ _ Mh Mw) A) as [i0 [j0 [Hi0 [Hj0 C0]]]].
  assert (R0 : Spec.row_bearing mask (width img) i0) by now exists j0.
  assert (K0 : Spec.col_bearing mask (height img) j0) by now exists i0.
  apply (rows_flag mask _ _ Mh Mw), np_where_In in R0.
  apply (cols_flag mask _ _ Mh Mw), np_where_In in K0.
  unfold find_content_bbox. rewrite Hbg. cbv beta iota delta [bind].
  fold mask. rewrite A. cbn [negb].
  destruct (np_where (np_any_axis1 mask)) as [|top rrest]; [contradiction|].
  destruct (np_where (np_any_axis0 (width img) mask)) as [|lft crest];
    [contradiction|].
  now exists top, rrest, lft, crest.
Qed.

(** Once some pixel is content, neither index list is empty: the second
    fallback of the finder (an empty [row_indices] or [col_indices]) is
    never taken. *)
Theorem second_fallback_is_unreachable (img : image) (mp tol : Q)
        (bg : fcolor) :
  wf_image img ->
  analyze_background_color img mp = Ok bg ->
  np_any (is_content (np_array img) bg tol) = true ->
  let is_content := is_content (np_array img) bg tol in
  let row_indices := np_where (np_any_axis1 is_content) in
  let col_indices := np_where (np_any_axis0 (width img) is_content) in
  row_indices <> [] /\ col_indices <> [].
Proof.
  intros Hwf Hbg A.
  destruct (find_content_bbox_content img mp tol bg Hwf Hbg A)
    as [top [rrest [lft [crest [ER [EC _]]]]]].
  cbv zeta. rewrite ER, EC. split; discriminate.
Qed.

Lemma dot_image_wf : wf_image dot_image.
Proof. split; [reflexivity|]. repeat constructor. Qed.

Lemma second_fallback_is_unreachable_witness :
  exists bg,
    wf_image dot_image /\
    analyze_background_color dot_image 5 = Ok bg /\
    np_any (is_content (np_array dot_image) bg 20) = true /\
    np_where (np_any_axis1 (is_content (np_array dot_image) bg 20)) <> [] /\
    np_where (np_any_axis0 (width dot_image)
                           (is_content (np_array dot_image) bg 20)) <> [].
Proof.
  exists (np_mean (all_edges (np_array dot_image) 0)).
  assert (H1 : analyze_background_color dot_image 5
               = Ok (np_mean (all_edges (np_array dot_image) 0)))
    by reflexivity.
  assert (H2 : np_any (is_content (np_array dot_image)
                         (np_mean (all_edges (np_array dot_image) 0)) 20)
               = true) by (vm_compute; reflexivity).
  split; [exact dot_image_wf|]. split; [exact H1|]. split; [exact H2|].
  exact (second_fallback_is_unreachable dot_image 5 20 _ dot_image_wf H1 H2).
Defined.



(** When the content pixels are exactly those of a non-empty rectangle of
    rows [t0, b0) and columns [l0, r0), the finder returns that
    rectangle. *)
Lemma bbox_of_rectangle (img : image) (mp tol : Q) (bg : fcolor)
      (l0 t0 r0 b0 : nat) :
  wf_image img ->
  analyze_background_color img mp = Ok bg ->
  (t0 < b0 <= height img)%nat ->
  (l0 < r0 <= width img)%nat ->
  (forall i j, (i < height img)%nat -> (j < width img)%nat ->
     (Spec.content_at (is_content (np_array img) bg tol) i j <->
      (t0 <= i < b0)%nat /\ (l0 <= j < r0)%nat)) ->
  find_content_bbox img mp tol = Ok (l0, t0, r0, b0).
Proof.
  intros Hwf Hbg Ht Hl Hrect.
  set (mask := is_content (np_array img) bg tol) in *.
  destruct (mask_shape img bg tol Hwf) as [Mh Mw]. fold mask in Mh, Mw.
  assert (RB : forall i, nth i (np_any_axis1 mask) false = true <->
                         (t0 <= i < b0)%nat).
  { intros i. rewrite (rows_flag mask _ _ Mh Mw). split.
    - intros [j [Hj C]].
      destruct (content_in_range mask _ _ Mh Mw _ _ C) as [Hi _].
      now apply (Hrect i j Hi Hj) in C.
    - intros Hi. exists l0. split; [lia|]. apply Hrect; lia. }
  assert (CB : forall j, nth j (np_any_axis0 (width img) mask) false = true <->
                         (l0 <= j < r0)%nat).
  { intros j. rewrite (cols_flag mask _ _ Mh Mw). split.
    - intros [i [Hi C]].
      destruct (content_in_range mask _ _ Mh Mw _ _ C) as [_ Hj].
      now apply (Hrect i j Hi Hj) in C.
    - intros Hj. exists t0. split; [lia|]. apply Hrect; lia. }
  assert (A : np_any mask = true).
  { apply (any_flag mask _ _ Mh Mw). exists t0, l0.
    split; [lia|]. split; [lia|]. apply Hrect; lia. }
  destruct (find_content_bbox_content img mp tol bg Hwf Hbg A)
    as [top [rrest [lft [crest [ER [EC E]]]]]]. fold mask in ER, EC.
  destruct (np_where_first _ _ _ ER) as [Rt Rmin].
  destruct (np_where_first _ _ _ EC) as [Cl Cmin].
  assert (NR : np_where (np_any_axis1 mask) <> [])
    by (rewrite ER; discriminate).
  assert (NC : np_where (np_any_axis0 (width img) mask) <> [])
    by (rewrite EC; discriminate).
  destruct (np_where_last _ NR) as [Rb Rmax].
  destruct (np_where_last _ NC) as [Cr Cmax].
  rewrite ER in Rb, Rmax. rewrite EC in Cr, Cmax.
  apply RB in Rt, Rb. apply CB in Cl, Cr.
  pose proof (Rmin t0 (proj2 (RB t0) ltac:(lia))).
  pose proof (Rmax (b0 - 1)%nat (proj2 (RB (b0 - 1)%nat) ltac:(lia))).
  pose proof (Cmin l0 (proj2 (CB l0) ltac:(lia))).
  pose proof (Cmax (r0 - 1)%nat (proj2 (CB (r0 - 1)%nat) ltac:(lia))).
  rewrite E. f_equal. f_equal; [f_equal; [f_equal|]|]; lia.
Qed.

(** The box of a rectangular block of content is the block itself. *)
Theorem bbox_of_rectangular_content (img : image) (mp tol : Q) (bg : fcolor)
        (l0 t0 r0 b0 : nat) :
  wf_image img ->
  analyze_background_color img mp = Ok bg ->
  (t0 < b0 <= height img)%nat ->
  (l0 < r0 <= width img)%nat ->
  (forall i j, (i < height img)%nat -> (j < width img)%nat ->
     (Spec.content_at (is_content (np_array img) bg tol) i j <->
      (t0 <= i < b0)%nat /\ (l0 <= j < r0)%nat)) ->
  find_content_bbox img mp tol = Ok (l0, t0, r0, b0).
Proof. apply bbox_of_rectangle. Qed.

Lemma bbox_of_rectangular_content_witness :
  exists bg,
    wf_image dot_image /\
    analyze_background_color dot_image 5 = Ok bg /\
    (1 < 2 <= height dot_image)%nat /\
    (2 < 3 <= width dot_image)%nat /\
    find_content_bbox dot_image 5 20 = Ok (2, 1, 3, 2)%nat.
Proof.
  set (bg := np_mean (all_edges (np_array dot_image) 0)).
  exists bg.
  assert (H1 : analyze_background_color dot_image 5 = Ok bg) by reflexivity.
  assert (H2 : (1 < 2 <= height dot_image)%nat) by (simpl; lia).
  assert (H3 : (2 < 3 <= width dot_image)%nat) by (simpl; lia).
  assert (H4 : forall i j, (i < height dot_image)%nat ->
                           (j < width dot_image)%nat ->
             (Spec.content_at (is_content (np_array dot_image) bg 20) i j <->
              (1 <= i < 2)%nat /\ (2 <= j < 3)%nat)).
  { intros i j Hi Hj. simpl in Hi, Hj. unfold Spec.content_at.
    destruct i as [|[|[|i]]]; try lia;
      destruct j as [|[|[|[|j]]]]; try lia;
      (split; intros H;
       [first [lia | vm_compute in H; discriminate H]
       |first [lia | vm_compute; reflexivity]]). }
  split; [exact dot_image_wf|]. split; [exact H1|]. split; [exact H2|].
  split; [exact H3|].
  exact (bbox_of_rectangular_content dot_image 5 20 bg 2 1 3 2
           dot_image_wf H1 H2 H3 H4).
Defined.




(* ================================================================== *)
(** * Properties of the driver *)
(* ================================================================== *)

Import Driver.

Lemma int_of_float_fraction (m : Z) (f : Q) :
  0 <= m -> (0 <= f <= 1)%Q ->
  0 <= int_of_float (inject_Z m * f) <= m.
Proof.
  intros Hm [F0 F1].
  assert (M0 : (0 <= inject_Z m)%Q).
  { change 0%Q with (inject_Z 0). now rewrite <- Zle_Qle. }
  assert (P0 : (0 <= inject_Z m * f)%Q) by now apply Qmult_le_0_compat.
  assert (P1 : (inject_Z m * f <= inject_Z m)%Q) by nra.
  pose proof (int_of_float_nonneg _ P0) as N.
  split; [exact N|].
  rewrite int_of_float_floor.
  - rewrite <- (Qfloor_Z m) at 2. now apply Qfloor_resp_le.
  - change 0 with (Qfloor 0). now apply Qfloor_resp_le.
Qed.

Lemma center_crop_box_square (center_fraction : Q) (w h : Z) :
  0 <= w -> 0 <= h -> (0 <= center_fraction <= 1)%Q ->
  let side := int_of_float (inject_Z (Z.min w h) * center_fraction) in
  exists left_ top,
    center_crop_box center_fraction w h
      = (left_, top, left_ + side, top + side) /\
    0 <= side <= Z.min w h /\
    0 <= left_ /\ left_ + side <= w /\
    0 <= top /\ top + side <= h /\
    -1 <= left_ - (w - (left_ + side)) <= 1 /\
    -1 <= top - (h - (top + side)) <= 1.
Proof.
  intros Hw Hh Hf side.
  pose proof (int_of_float_fraction (Z.min w h) center_fraction
                ltac:(lia) Hf) as Hs.
  fold side in Hs.
  exists (w / 2 - side / 2), (h / 2 - side / 2).
  unfold center_crop_box, floordiv. fold side.
  pose proof (Z.div_mod w 2 ltac:(lia)).
  pose proof (Z.mod_pos_bound w 2 ltac:(lia)).
  pose proof (Z.div_mod h 2 ltac:(lia)).
  pose proof (Z.mod_pos_bound h 2 ltac:(lia)).
  pose proof (Z.div_mod side 2 ltac:(lia)).
  pose proof (Z.mod_pos_bound side 2 ltac:(lia)).
  split.
  - f_equal; [f_equal; [f_equal|]|]; lia.
  - lia.
Qed.

(** For a centre fraction in [0, 1] the clamps of the crop box never
    bind: the box is a square of side [int(min(w, h) * fraction)] that lies
    inside the image, and the space left on opposite sides differs by at
    most one pixel. *)
Theorem center_crop_box_is_centered_square (center_fraction : Q) (w h : Z) :
  0 <= w -> 0 <= h -> (0 <= center_fraction <= 1)%Q ->
  let side := int_of_float (inject_Z (Z.min w h) * center_fraction) in
  exists left_ top,
    center_crop_box center_fraction w h
      = (left_, top, left_ + side, top + side) /\
    0 <= side <= Z.min w h /\
    0 <= left_ /\ left_ + side <= w /\
    0 <= top /\ top + side <= h /\
    -1 <= left_ - (w - (left_ + side)) <= 1 /\
    -1 <= top - (h - (top + side)) <= 1.
Proof. apply center_crop_box_square. Qed.

Lemma center_crop_box_is_centered_square_witness :
  0 <= 7 /\ 0 <= 4 /\ (0 <= CENTER_FRACTION <= 1)%Q /\
  center_crop_box CENTER_FRACTION 7 4 = (2, 1, 4, 3).
Proof.
  assert (H1 : 0 <= 7) by lia.
  assert (H2 : 0 <= 4) by lia.
  assert (H3 : (0 <= CENTER_FRACTION <= 1)%Q)
    by (split; unfold Qle; simpl; lia).
  split; [exact H1|]. split; [exact H2|]. split; [exact H3|].
  destruct (center_crop_box_is_centered_square CENTER_FRACTION 7 4 H1 H2 H3)
    as [l [t [E _]]].
  rewrite E. vm_compute in E. injection E as <- <- _ _. reflexivity.
Defined.

Lemma crop_ok (img : image) (l t r b : Z) :
  l <= r -> t <= b ->
  exists c,
    crop img (l, t, r, b) = Ok c /\
    wf_image c /\
    width c = Z.to_nat (r - l) /\ height c = Z.to_nat (b - t).
Proof.
  intros Hl Ht. unfold crop.
  replace (r <? l) with false by (symmetry; apply Z.ltb_ge; lia).
  replace (b <? t) with false by (symmetry; apply Z.ltb_ge; lia).
  cbn [orb]. eexists. split; [reflexivity|].
  split; [|split; reflexivity].
  split; cbn [rows width height].
  - now rewrite length_map, length_seq.
  - apply Forall_forall. intros row Hrow. apply in_map_iff in Hrow.
    destruct Hrow as [i [<- _]]. now rewrite length_map, length_seq.
Qed.

Lemma side_is_half (m : Z) :
  0 <= m -> int_of_float (inject_Z m * CENTER_FRACTION) = m / 2.
Proof.
  intros Hm. unfold int_of_float, CENTER_FRACTION. cbn [Qnum Qden Qmult inject_Z].
  rewrite Z.quot_div_nonneg by lia.
  change (Z.pos (1 * 10)) with 10.
  pose proof (Z.div_mod (m * 5) 10 ltac:(lia)).
  pose proof (Z.mod_pos_bound (m * 5) 10 ltac:(lia)).
  pose proof (Z.div_mod m 2 ltac:(lia)).
  pose proof (Z.mod_pos_bound m 2 ltac:(lia)).
  lia.
Qed.

Lemma center_fraction_range : (0 <= CENTER_FRACTION <= 1)%Q.
Proof. split; unfold Qle; simpl; lia. Qed.

Lemma scale_up_ge_1 : (1 <= SCALE_UP)%Q.
Proof. unfold Qle; simpl; lia. Qed.

(** The crop the driver takes: a square of side [min(w, h) // 2]. *)
Lemma driver_crop (src : image) :
  exists cropped,
    crop src (center_crop_box CENTER_FRACTION (Z.of_nat (width src))
                              (Z.of_nat (height src))) = Ok cropped /\
    wf_image cropped /\
    Z.of_nat (width cropped) = Z.of_nat (Nat.min (width src) (height src)) / 2 /\
    height cropped = width cropped.
Proof.
  destruct (center_crop_box_square CENTER_FRACTION (Z.of_nat (width src))
              (Z.of_nat (height src)) ltac:(lia) ltac:(lia)
              center_fraction_range)
    as [l [t [E [Hs _]]]].
  rewrite side_is_half in E, Hs by lia.
  rewrite E.
  destruct (crop_ok src l t
              (l + Z.min (Z.of_nat (width src)) (Z.of_nat (height src)) / 2)
              (t + Z.min (Z.of_nat (width src)) (Z.of_nat (height src)) / 2)
              ltac:(lia) ltac:(lia)) as [c [Ec [Wf [Cw Ch]]]].
  exists c. split; [exact Ec|]. split; [exact Wf|].
  rewrite Cw, Ch. rewrite Nat2Z.inj_min.
  set (s := Z.min (Z.of_nat (width src)) (Z.of_nat (height src)) / 2) in *.
  split; [|f_equal; lia].
  rewrite Z2Nat.id by lia. lia.
Qed.

(** Whatever icon the compositor returns has the requested size. *)
Lemma create_icon_dims (resize : image -> Z -> Z -> image) (cropped : image)
      (bg : fcolor) (icon_size : Z) (scale_up : Q) (icon : image) :
  create_icon_from_cropped resize cropped bg icon_size scale_up = Ok icon ->
  wf_image icon /\
  Z.of_nat (width icon) = icon_size /\ Z.of_nat (height icon) = icon_size.
Proof.
  unfold create_icon_from_cropped, new_canvas, bg_tuple_of, Image_new.
  destruct (scaled_size cropped icon_size scale_up) as [[nw nh]|]; [|discriminate].
  cbv beta iota delta [bind].
  destruct bg as [r g b|]; [|discriminate].
  destruct (icon_size <? 0) eqn:E; [discriminate|].
  apply Z.ltb_ge in E. cbn [orb]. intros H. injection H as <-.
  split.
  - apply paste_wf.
    apply (uniform_image_wf _ (Z.to_nat icon_size) (Z.to_nat icon_size)).
  - cbn [paste width height]. lia.
Qed.

(** The compositor succeeds on a crop with positive sides, a real
    background and a size that is not negative. *)
Lemma create_icon_defined (resize : image -> Z -> Z -> image) (cropped : image)
      (r g b : Q) (icon_size : Z) (scale_up : Q) :
  (1 <= width cropped)%nat -> (1 <= height cropped)%nat -> 0 <= icon_size ->
  exists icon,
    create_icon_from_cropped resize cropped (Color r g b) icon_size scale_up
    = Ok icon.
Proof.
  intros Hw Hh Ht.
  destruct (scaled_size_defined cropped icon_size scale_up Hw Hh)
    as [nw [nh [E _]]].
  eexists. apply (create_icon_ok _ _ _ _ _ _ _ nw nh Ht E).
Qed.

Section SaveLoop.

Variable resize : image -> Z -> Z -> image.
Variable e : env.
Variables (cropped : image) (bg : fcolor).

(** The loop saves one icon per entry, in order, up to the first entry
    that fails, and reports success exactly when no entry failed. *)
Lemma save_icons_prefix (sizes : list (Z * String.string)) :
  exists k,
    (k <= length sizes)%nat /\
    Forall2 (saved_as resize cropped bg) (snd (save_icons resize e cropped bg sizes))
            (firstn k sizes) /\
    (fst (save_icons resize e cropped bg sizes) = true <-> k = length sizes).
Proof.
  induction sizes as [|[size filename] rest IH].
  - exists 0%nat. cbn. split; [lia|]. split; [constructor|tauto].
  - cbn [save_icons].
    destruct (create_icon_from_cropped resize cropped bg size SCALE_UP)
      as [icon|ex] eqn:C.
    + destruct (save_png e (path_join OUTPUT_DIR filename) icon).
      * destruct IH as [k [Hk [F Hok]]].
        destruct (save_icons resize e cropped bg rest) as [ok evs].
        exists (S k). cbn [fst snd length firstn] in *.
        split; [lia|]. split.
        -- constructor; [|exact F]. exists icon. now split.
        -- rewrite Hok. lia.
      * exists 0%nat. cbn. split; [lia|]. split; [constructor|].
        split; [discriminate|lia].
    + exists 0%nat. cbn. split; [lia|]. split; [constructor|].
      split; [discriminate|lia].
Qed.

Lemma saved_as_paths (evs : list event) (sizes : list (Z * String.string)) :
  Forall2 (saved_as resize cropped bg) evs sizes ->
  saved_paths evs = map (fun sz => path_join OUTPUT_DIR (snd sz)) sizes.
Proof.
  induction 1 as [|ev sz evs sizes [icon [-> _]] _ IH]; [reflexivity|].
  cbn. unfold saved_paths in IH. now rewrite IH.
Qed.

Lemma saved_as_icons (evs : list event) (sizes : list (Z * String.string)) :
  Forall2 (saved_as resize cropped bg) evs sizes ->
  Forall2 (fun icon sz =>
             create_icon_from_cropped resize cropped bg (fst sz) SCALE_UP
             = Ok icon)
          (saved_icons evs) sizes.
Proof.
  induction 1 as [|ev sz evs sizes [icon [-> C]] _ IH]; [constructor|].
  cbn. constructor; assumption.
Qed.

(** When every entry can be composed and saved, the loop saves them
    all. *)
Lemma save_icons_all (sizes : list (Z * String.string)) :
  (forall sz, In sz sizes ->
     exists icon,
       create_icon_from_cropped resize cropped bg (fst sz) SCALE_UP = Ok icon) ->
  (forall path icon, save_png e path icon = true) ->
  fst (save_icons resize e cropped bg sizes) = true.
Proof.
  intros Hc Hs. induction sizes as [|[size filename] rest IH]; [reflexivity|].
  cbn [save_icons].
  destruct (Hc (size, filename) (or_introl eq_refl)) as [icon C].
  cbn [fst] in C. rewrite C, Hs.
  assert (R : fst (save_icons resize e cropped bg rest) = true).
  { apply IH. intros sz Hsz. apply Hc. now right. }
  destruct (save_icons resize e cropped bg rest) as [ok evs].
  exact R.
Qed.

End SaveLoop.

Lemma Forall2_In_left {A B : Type} (R : A -> B -> Prop) (l1 : list A)
      (l2 : list B) (x : A) :
  Forall2 R l1 l2 -> In x l1 -> exists y, In y l2 /\ R x y.
Proof.
  induction 1 as [|a b l1 l2 Hab _ IH]; intros Hx; [contradiction|].
  destruct Hx as [<- | Hx].
  - exists b. split; [now left|exact Hab].
  - destruct (IH Hx) as [y [Hy Rxy]]. exists y. split; [now right|exact Rxy].
Qed.

Lemma Forall2_weaken {A B : Type} (R S : A -> B -> Prop) (l1 : list A)
      (l2 : list B) :
  (forall a b, R a b -> S a b) -> Forall2 R l1 l2 -> Forall2 S l1 l2.
Proof. intros H. induction 1; constructor; auto. Qed.

Lemma icon_sizes_positive (sz : Z * String.string) :
  In sz ICON_SIZES -> 0 < fst sz.
Proof.
  unfold ICON_SIZES. cbn [In].
  intros H. repeat (destruct H as [<- | H]; [cbn; lia|]). contradiction.
Qed.

(** On every run the saved files are, in order, the first [k] entries of
    the size table under the output directory, for some [k]; each saved
    icon is a well-formed square image of the size of its entry; and the
    driver returns True exactly when all seven entries were saved. *)
Theorem driver_saves_a_prefix (resize : image -> Z -> Z -> image) (e : env) :
  let run := create_icons_from_source resize e in
  exists k,
    (k <= length ICON_SIZES)%nat /\
    saved_paths (snd run)
    = map (fun sz => path_join OUTPUT_DIR (snd sz)) (firstn k ICON_SIZES) /\
    Forall2 (fun icon sz =>
               wf_image icon /\
               Z.of_nat (width icon) = fst sz /\
               Z.of_nat (height icon) = fst sz)
            (saved_icons (snd run)) (firstn k ICON_SIZES) /\
    (fst run = Returned true <-> k = length ICON_SIZES).
Proof.
  assert (Stop : forall o, o <> Returned true ->
            exists k,
              (k <= length ICON_SIZES)%nat /\
              saved_paths (@nil event)
              = map (fun sz => path_join OUTPUT_DIR (snd sz))
                    (firstn k ICON_SIZES) /\
              Forall2 (fun icon sz =>
                         wf_image icon /\
                         Z.of_nat (width icon) = fst sz /\
                         Z.of_nat (height icon) = fst sz)
                      (saved_icons (@nil event)) (firstn k ICON_SIZES) /\
              (o = Returned true <-> k = length ICON_SIZES)).
  { intros o Ho. exists 0%nat. split; [cbn; lia|]. split; [reflexivity|].
    split; [constructor|]. split; [contradiction|]. cbn. lia. }
  cbv zeta. unfold create_icons_from_source.
  destruct (path_exists e INPUT_IMAGE); cbn [negb];
    [|apply Stop; discriminate].
  destruct (open_rgb e INPUT_IMAGE) as [src|]; [|apply Stop; discriminate].
  destruct (crop src _) as [cropped|ex];
    cbv beta iota zeta delta [bind Sampler.analyze_background_color];
    [|apply Stop; discriminate].
  destruct (makedirs e OUTPUT_DIR); [|apply Stop; discriminate].
  set (bg := np_mean _).
  destruct (save_icons_prefix resize e cropped bg ICON_SIZES)
    as [k [Hk [F Hok]]].
  destruct (save_icons resize e cropped bg ICON_SIZES) as [ok evs].
  cbn [fst snd] in *. exists k. split; [exact Hk|].
  split; [exact (saved_as_paths resize cropped bg _ _ F)|].
  split.
  - apply saved_as_icons in F.
    eapply Forall2_weaken; [|exact F].
    intros icon sz C. cbv beta in C. now apply create_icon_dims in C.
  - rewrite <- Hok. split; [now intros [= ->] | now intros ->].
Qed.

(** The run of the driver once the source is open and the output
    directory exists. *)
Lemma driver_run (resize : image -> Z -> Z -> image) (e : env) (src : image) :
  path_exists e INPUT_IMAGE = true ->
  open_rgb e INPUT_IMAGE = Some src ->
  makedirs e OUTPUT_DIR = true ->
  exists cropped bg,
    crop src (center_crop_box CENTER_FRACTION (Z.of_nat (width src))
                              (Z.of_nat (height src))) = Ok cropped /\
    Sampler.analyze_background_color src default_margin_percent = Ok bg /\
    create_icons_from_source resize e
    = (Returned (fst (save_icons resize e cropped bg ICON_SIZES)),
       MadeDir OUTPUT_DIR :: snd (save_icons resize e cropped bg ICON_SIZES)).
Proof.
  intros He Ho Hm.
  destruct (driver_crop src) as [cropped [Ec _]].
  exists cropped. eexists. split; [exact Ec|]. split; [reflexivity|].
  unfold create_icons_from_source. rewrite He, Ho. cbn [negb].
  rewrite Ec. cbv beta iota zeta delta [bind Sampler.analyze_background_color].
  rewrite Hm.
  destruct (save_icons resize e cropped _ ICON_SIZES) as [ok evs].
  reflexivity.
Qed.

(** When the source exists, opens as an image whose sides are both at
    least 2 pixels, the output directory can be created and every save
    succeeds, the driver returns True and saves all seven icons under
    their names, in the order of the size table. *)
Theorem driver_succeeds_on_usable_source
        (resize : image -> Z -> Z -> image) (e : env) (src : image) :
  path_exists e INPUT_IMAGE = true ->
  open_rgb e INPUT_IMAGE = Some src ->
  wf_image src ->
  (2 <= width src)%nat ->
  (2 <= height src)%nat ->
  makedirs e OUTPUT_DIR = true ->
  (forall path icon, save_png e path icon = true) ->
  let run := create_icons_from_source resize e in
  fst run = Returned true /\
  saved_paths (snd run)
  = map (fun sz => path_join OUTPUT_DIR (snd sz)) ICON_SIZES.
Proof.
  intros He Ho Hwf Hw Hh Hm Hs. cbv zeta.
  destruct (driver_run resize e src He Ho Hm) as [cropped [bg [Ec [Eb R]]]].
  destruct (driver_crop src) as [c' [Ec' [Cwf [Cw Ch]]]].
  rewrite Ec in Ec'. injection Ec' as <-.
  assert (Side : (1 <= width cropped)%nat).
  { assert (1 <= Z.of_nat (Nat.min (width src) (height src)) / 2).
    { rewrite Nat2Z.inj_min. apply Z.div_le_lower_bound. all: lia. }
    lia. }
  assert (Real : exists r g b, bg = Color r g b).
  { unfold Sampler.analyze_background_color in Eb. injection Eb as <-.
    assert (P : (0 <= default_margin_percent)%Q)
      by (unfold default_margin_percent, Qle; simpl; lia).
    pose proof (sample_nonempty src
                  (margin_of (height src) (width src) default_margin_percent)
                  Hwf ltac:(lia) ltac:(lia)
                  (margin_of_nonneg (height src) (width src) _ P)) as NE.
    destruct (all_edges _ _) as [|q s]; [congruence|].
    cbn [np_mean]. eexists. eexists. eexists. reflexivity. }
  destruct Real as [r [g [b ->]]].
  assert (All : fst (save_icons resize e cropped (Color r g b) ICON_SIZES)
                = true).
  { apply save_icons_all; [|exact Hs].
    intros sz Hsz. apply create_icon_defined; try lia.
    pose proof (icon_sizes_positive sz Hsz). lia. }
  rewrite R. cbn [fst snd]. split; [now rewrite All|].
  destruct (save_icons_prefix resize e cropped (Color r g b) ICON_SIZES)
    as [k [Hk [F Hok]]].
  apply Hok in All. subst k. rewrite firstn_all in F.
  cbn [saved_paths flat_map app].
  exact (saved_as_paths resize cropped (Color r g b) _ _ F).
Qed.

Lemma driver_succeeds_on_usable_source_witness :
  let e := friendly_env dot_image in
  path_exists e INPUT_IMAGE = true /\
  open_rgb e INPUT_IMAGE = Some dot_image /\
  wf_image dot_image /\
  (2 <= width dot_image)%nat /\ (2 <= height dot_image)%nat /\
  makedirs e OUTPUT_DIR = true /\
  (forall path icon, save_png e path icon = true) /\
  fst (create_icons_from_source resize_nearest e) = Returned true.
Proof.
  intros e.
  assert (H1 : path_exists e INPUT_IMAGE = true) by reflexivity.
  assert (H2 : open_rgb e INPUT_IMAGE = Some dot_image) by reflexivity.
  assert (H3 : (2 <= width dot_image)%nat) by (simpl; lia).
  assert (H4 : (2 <= height dot_image)%nat) by (simpl; lia).
  assert (H5 : makedirs e OUTPUT_DIR = true) by reflexivity.
  assert (H6 : forall path icon, save_png e path icon = true)
    by (intros; reflexivity).
  split; [exact H1|]. split; [exact H2|]. split; [exact dot_image_wf|].
  split; [exact H3|]. split; [exact H4|]. split; [exact H5|].
  split; [exact H6|].
  exact (proj1 (driver_succeeds_on_usable_source resize_nearest e dot_image
                  H1 H2 dot_image_wf H3 H4 H5 H6)).
Defined.

Lemma zero_crop_raises (resize : image -> Z -> Z -> image) (cropped : image)
      (bg : fcolor) (icon_size : Z) (scale_up : Q) :
  width cropped = 0%nat -> height cropped = 0%nat ->
  create_icon_from_cropped resize cropped bg icon_size scale_up
  = Raise ZeroDivisionError.
Proof.
  intros Hw Hh. unfold create_icon_from_cropped, scaled_size.
  rewrite Hw, Hh. reflexivity.
Qed.

(** A source whose shorter side is 0 or 1 pixel gives an empty centre
    crop: the driver creates the output directory, the first icon fails on
    the division by zero, and the driver returns False with no file
    saved. *)
Theorem driver_fails_on_tiny_source
        (resize : image -> Z -> Z -> image) (e : env) (src : image) :
  path_exists e INPUT_IMAGE = true ->
  open_rgb e INPUT_IMAGE = Some src ->
  ((width src <= 1)%nat \/ (height src <= 1)%nat) ->
  makedirs e OUTPUT_DIR = true ->
  create_icons_from_source resize e = (Returned false, [MadeDir OUTPUT_DIR]).
Proof.
  intros He Ho Hsmall Hm.
  destruct (driver_crop src) as [c' [Ec' [_ [Cw Ch]]]].
  assert (W0 : width c' = 0%nat).
  { assert (Z.of_nat (Nat.min (width src) (height src)) / 2 = 0).
    { apply Z.div_small. lia. }
    lia. }
  destruct (driver_run resize e src He Ho Hm) as [cropped [bg [Ec [_ R]]]].
  rewrite Ec in Ec'. injection Ec' as <-.
  rewrite R. unfold ICON_SIZES. cbn [save_icons].
  rewrite zero_crop_raises by (try exact W0; now rewrite Ch).
  reflexivity.
Qed.

Lemma driver_fails_on_tiny_source_witness :
  let src := uniform_image (1, 2, 3) 1 5 in
  let e := friendly_env src in
  path_exists e INPUT_IMAGE = true /\
  open_rgb e INPUT_IMAGE = Some src /\
  ((width src <= 1)%nat \/ (height src <= 1)%nat) /\
  makedirs e OUTPUT_DIR = true /\
  create_icons_from_source resize_nearest e
  = (Returned false, [MadeDir OUTPUT_DIR]).
Proof.
  intros src e.
  assert (H1 : path_exists e INPUT_IMAGE = true) by reflexivity.
  assert (H2 : open_rgb e INPUT_IMAGE = Some src) by reflexivity.
  assert (H3 : (width src <= 1)%nat \/ (height src <= 1)%nat)
    by (right; simpl; lia).
  assert (H4 : makedirs e OUTPUT_DIR = true) by reflexivity.
  split; [exact H1|]. split; [exact H2|]. split; [exact H3|].
  split; [exact H4|].
  exact (driver_fails_on_tiny_source resize_nearest e src H1 H2 H3 H4).
Defined.

(** In every icon the driver saves, each pixel is a pixel of the resized
    centre crop: the crop is square and [SCALE_UP] exceeds 1, so the
    content covers the whole canvas and the sampled background colour
    reaches no pixel of any output. *)
Theorem driver_icons_show_no_background
        (resize : image -> Z -> Z -> image) (e : env) (src : image)
        (path : String.string) (icon : image) :
  resize_ok resize ->
  open_rgb e INPUT_IMAGE = Some src ->
  In (Saved path icon) (snd (create_icons_from_source resize e)) ->
  exists cropped size new_dim,
    crop src (center_crop_box CENTER_FRACTION (Z.of_nat (width src))
                              (Z.of_nat (height src))) = Ok cropped /\
    In size (map fst ICON_SIZES) /\
    Z.of_nat (width icon) = size /\
    Z.of_nat (height icon) = size /\
    size <= new_dim /\
    forall i j, (i < Z.to_nat size)%nat -> (j < Z.to_nat size)%nat ->
      exists q,
        pixel_atZ (resize cropped new_dim new_dim)
                  (Z.of_nat i - center_offset size new_dim)
                  (Z.of_nat j - center_offset size new_dim) = Some q /\
        pixel_at icon i j = Some q.
Proof.
  intros Hres Ho Hin.
  destruct (path_exists e INPUT_IMAGE) eqn:He.
  2:{ unfold create_icons_from_source in Hin. rewrite He in Hin.
      contradiction. }
  destruct (makedirs e OUTPUT_DIR) eqn:Hm.
  2:{ unfold create_icons_from_source in Hin. rewrite He, Ho in Hin.
      cbn [negb] in Hin.
      destruct (crop src _) as [c|ex];
        cbv beta iota zeta delta [bind Sampler.analyze_background_color] in Hin;
        [rewrite Hm in Hin|]; contradiction. }
  destruct (driver_run resize e src He Ho Hm) as [cropped [bg [Ec [_ R]]]].
  destruct (driver_crop src) as [c' [Ec' [Cwf [Cw Ch]]]].
  rewrite Ec in Ec'. injection Ec' as <-.
  rewrite R in Hin. cbn [snd] in Hin.
  destruct Hin as [Hin | Hin]; [discriminate Hin|].
  destruct (save_icons_prefix resize e cropped bg ICON_SIZES)
    as [k [_ [F _]]].
  destruct (Forall2_In_left _ _ _ _ F Hin) as [sz [Hsz [icon' [Eq C]]]].
  injection Eq as _ <-.
  apply firstn_In in Hsz.
  pose proof (icon_sizes_positive sz Hsz) as Pos.
  (* the crop cannot be empty and the background cannot be NaN *)
  assert (Side : (1 <= width cropped)%nat).
  { destruct (width cropped) eqn:W; [|lia].
    rewrite zero_crop_raises in C by (try exact W; now rewrite Ch).
    discriminate C. }
  destruct bg as [r g b|].
  2:{ unfold create_icon_from_cropped in C.
      rewrite (scaled_size_unfold cropped (fst sz) SCALE_UP Side
                 ltac:(lia)) in C.
      discriminate C. }
  destruct (square_cover resize cropped r g b (fst sz) SCALE_UP Hres
              (eq_sym Ch) Side Pos scale_up_ge_1)
    as [icon2 [n [C2 [_ [Hn [_ Hpix]]]]]].
  rewrite C in C2. injection C2 as <-.
  destruct (create_icon_dims _ _ _ _ _ _ C) as [_ [Dw Dh]].
  exists cropped, (fst sz), n.
  split; [exact Ec|]. split; [now apply in_map|].
  split; [exact Dw|]. split; [exact Dh|]. split; [exact Hn|exact Hpix].
Qed.

Lemma save_icons_step (resize : image -> Z -> Z -> image) (e : env)
      (cropped : image) (bg : fcolor) (size : Z) (filename : String.string)
      (rest : list (Z * String.string)) (icon : image) :
  create_icon_from_cropped resize cropped bg size SCALE_UP = Ok icon ->
  save_png e (path_join OUTPUT_DIR filename) icon = true ->
  snd (save_icons resize e cropped bg ((size, filename) :: rest))
  = Saved (path_join OUTPUT_DIR filename) icon
    :: snd (save_icons resize e cropped bg rest).
Proof.
  intros C S. cbn [save_icons]. rewrite C, S.
  destruct (save_icons resize e cropped bg rest). reflexivity.
Qed.

Lemma driver_icons_show_no_background_witness :
  let e := friendly_env dot_image in
  let path := path_join OUTPUT_DIR "AppIcon-16x16.png"%string in
  exists icon,
    resize_ok resize_nearest /\
    open_rgb e INPUT_IMAGE = Some dot_image /\
    In (Saved path icon) (snd (create_icons_from_source resize_nearest e)) /\
    Z.of_nat (width icon) = 16.
Proof.
  intros e path.
  assert (H2 : open_rgb e INPUT_IMAGE = Some dot_image) by reflexivity.
  destruct (driver_run resize_nearest e dot_image eq_refl H2 eq_refl)
    as [cropped [bg [Ec [Eb R]]]].
  destruct (create_icon_from_cropped resize_nearest cropped bg 16 SCALE_UP)
    as [icon|ex] eqn:C.
  - exists icon.
    assert (H3 : In (Saved path icon)
                    (snd (create_icons_from_source resize_nearest e))).
    { rewrite R. cbn [snd]. right. unfold ICON_SIZES.
      rewrite (save_icons_step resize_nearest e cropped bg 16 _ _ icon C
                               eq_refl).
      now left. }
    split; [exact resize_nearest_ok|]. split; [exact H2|]. split; [exact H3|].
    destruct (driver_icons_show_no_background resize_nearest e dot_image
                path icon resize_nearest_ok H2 H3)
      as [c [size [n [_ [_ [W _]]]]]].
    destruct (create_icon_dims _ _ _ _ _ _ C) as [_ [Dw _]]. exact Dw.
  - exfalso.
    vm_compute in Ec. injection Ec as <-.
    vm_compute in Eb. injection Eb as <-.
    unfold create_icon_from_cropped in C.
    rewrite (scaled_size_unfold _ 16 SCALE_UP) in C by (simpl; lia).
    cbv beta iota zeta delta [bind new_canvas bg_tuple_of] in C.
    rewrite Image_new_ok in C by lia. discriminate C.
Defined.

(* ================================================================== *)
(** * The sampler in binary floating point: properties *)
(* ================================================================== *)

Module FloatSamplerFacts.

Import FloatSampler.
Import Spec32.

Section GenericBands.

Context {A : Type} (d : A).
Variables (a : list (list A)) (h w : nat).
Hypothesis Hh : length a = h.
Hypothesis Hw : Forall (fun r => length r = w) a.

Lemma row_has_width (i : nat) : (i < h)%nat -> length (nth i a []) = w.
Proof.
  intros Hi. rewrite Forall_forall in Hw. apply Hw, nth_In. lia.
Qed.

(** Selecting by the row index alone keeps whole rows. *)
Lemma select_by_row (rs : nat -> bool) (sel : nat -> nat -> bool) :
  (forall i j, sel i j = rs i) ->
  select d a h w sel
  = flat_map (fun i => if rs i then nth i a [] else []) (seq 0 h).
Proof.
  intros Hsel. unfold select. apply flat_map_ext_in.
  intros i Hi. apply in_seq in Hi.
  rewrite <- (row_has_width i) by lia.
  destruct (rs i) eqn:E.
  - rewrite (flat_map_ext_in _ (fun j => [nth j (nth i a []) d])).
    + pose proof (select_all d (fun x : A => [x]) (nth i a [])) as S.
      etransitivity; [exact S | apply flat_map_singleton].
    + intros j _. now rewrite Hsel, E.
  - rewrite (flat_map_ext_in _ (fun _ => [])).
    + induction (seq 0 (length (nth i a []))); simpl; auto.
    + intros j _. now rewrite Hsel, E.
Qed.

(** Selecting by the column index alone keeps the same positions of every
    row. *)
Lemma select_by_col (cs : nat -> bool) (sel : nat -> nat -> bool) :
  (forall i j, sel i j = cs j) ->
  select d a h w sel
  = flat_map (fun r =>
                flat_map (fun j => if cs j then [nth j r d] else [])
                         (seq 0 (length r))) a.
Proof.
  intros Hsel. unfold select.
  pose proof (select_all [] (fun r : list A =>
                flat_map (fun j => if cs j then [nth j r d] else [])
                         (seq 0 (length r))) a) as S.
  etransitivity; [|exact S].
  rewrite Hh. apply flat_map_ext_in.
  intros i Hi. apply in_seq in Hi.
  rewrite (row_has_width i) by lia.
  apply flat_map_ext. intros j. now rewrite Hsel.
Qed.

Lemma band_top (m : Z) :
  select d a h w (Spec.in_top m) = concat (firstn (Z.to_nat m) a).
Proof.
  rewrite (select_by_row (fun i => (i <? Z.to_nat m)%nat)).
  - pose proof (select_below [] (fun r : list A => r) a (Z.to_nat m)) as S.
    rewrite Hh in S. etransitivity; [exact S | apply flat_map_id].
  - intros i j. unfold Spec.in_top.
    destruct (Z.ltb_spec (Z.of_nat i) m), (Nat.ltb_spec i (Z.to_nat m));
      trivial; lia.
Qed.

Lemma band_bottom (m : Z) :
  select d a h w (Spec.in_bottom h m)
  = concat (skipn (Z.to_nat (Z.of_nat h - m)) a).
Proof.
  rewrite (select_by_row (fun i => (Z.to_nat (Z.of_nat h - m) <=? i)%nat)).
  - pose proof (select_from [] (fun r : list A => r) a
                            (Z.to_nat (Z.of_nat h - m))) as S.
    rewrite Hh in S. etransitivity; [exact S | apply flat_map_id].
  - intros i j. unfold Spec.in_bottom.
    destruct (Z.leb_spec (Z.of_nat h - m) (Z.of_nat i)),
             (Nat.leb_spec (Z.to_nat (Z.of_nat h - m)) i); trivial; lia.
Qed.

Lemma band_left (m : Z) :
  select d a h w (Spec.in_left m) = concat (map (firstn (Z.to_nat m)) a).
Proof.
  rewrite (select_by_col (fun j => (j <? Z.to_nat m)%nat)).
  - rewrite flat_map_concat_map. apply (f_equal (@concat A)).
    apply map_ext. intros r.
    pose proof (select_below d (fun x : A => [x]) r (Z.to_nat m)) as S.
    etransitivity; [exact S | apply flat_map_singleton].
  - intros i j. unfold Spec.in_left.
    destruct (Z.ltb_spec (Z.of_nat j) m), (Nat.ltb_spec j (Z.to_nat m));
      trivial; lia.
Qed.

Lemma band_right (m : Z) :
  select d a h w (Spec.in_right w m)
  = concat (map (skipn (Z.to_nat (Z.of_nat w - m))) a).
Proof.
  rewrite (select_by_col (fun j => (Z.to_nat (Z.of_nat w - m) <=? j)%nat)).
  - rewrite flat_map_concat_map. apply (f_equal (@concat A)).
    apply map_ext. intros r.
    pose proof (select_from d (fun x : A => [x]) r
                            (Z.to_nat (Z.of_nat w - m))) as S.
    etransitivity; [exact S | apply flat_map_singleton].
  - intros i j. unfold Spec.in_right.
    destruct (Z.leb_spec (Z.of_nat w - m) (Z.of_nat j)),
             (Nat.leb_spec (Z.to_nat (Z.of_nat w - m)) j); trivial; lia.
Qed.

(** The strips the code slices out are the four bands, in order. *)
Lemma strips_are_bands (m : Z) :
  1 <= m -> all_edges a m = band_sample d a h w m.
Proof.
  intros Hm. unfold all_edges, band_sample.
  rewrite band_top, band_bottom, band_left, band_right.
  unfold top_edge, bottom_edge, left_edge, right_edge.
  rewrite slice_prefix by lia. rewrite slice_suffix by lia. rewrite Hh.
  f_equal. f_equal. f_equal.
  - f_equal. apply map_ext. intros r. apply slice_prefix. lia.
  - f_equal. apply map_ext_in. intros r Hr.
    rewrite slice_suffix by lia.
    rewrite Forall_forall in Hw. now rewrite (Hw r Hr).
Qed.

Lemma strips_nonempty (m : Z) :
  1 <= m -> (1 <= h)%nat -> (1 <= w)%nat -> all_edges a m <> [].
Proof.
  intros Hm H1 H2. unfold all_edges, top_edge.
  rewrite slice_prefix by lia.
  destruct a as [|r a']; [simpl in Hh; lia|].
  assert (Hr : length r = w) by (inversion Hw; assumption).
  destruct r as [|p r]; [simpl in Hr; lia|].
  replace (Z.to_nat m) with (S (Z.to_nat m - 1)) by lia.
  simpl. discriminate.
Qed.

Lemma whole_nonempty : (1 <= h)%nat -> (1 <= w)%nat -> concat a <> [].
Proof.
  intros H1 H2.
  destruct a as [|r a']; [simpl in Hh; lia|].
  assert (Hr : length r = w) by (inversion Hw; assumption).
  destruct r as [|p r]; [simpl in Hr; lia|].
  simpl. discriminate.
Qed.

End GenericBands.

(** The strips for margin 0. *)
Lemma strips_zero {A : Type} (a : list (list A)) :
  top_edge a 0 = [] /\ left_edge a 0 = [] /\
  bottom_edge a 0 = concat a /\ right_edge a 0 = concat a.
Proof.
  unfold top_edge, left_edge, bottom_edge, right_edge.
  repeat split.
  - induction a as [|r a IH]; [reflexivity|].
    cbn [map concat]. rewrite slice_prefix_zero. exact IH.
  - f_equal. rewrite <- (map_id a) at 2. apply map_ext.
    intros r. apply slice_suffix_zero.
Qed.

Lemma float_array_height (img : image) :
  wf_image img -> length (FloatSampler.np_array img) = height img.
Proof. intros [H _]. unfold FloatSampler.np_array. now rewrite length_map. Qed.

Lemma float_array_width (img : image) :
  wf_image img ->
  Forall (fun r => length r = width img) (FloatSampler.np_array img).
Proof.
  intros [_ H]. unfold FloatSampler.np_array. apply Forall_forall.
  intros r Hr. apply in_map_iff in Hr. destruct Hr as [r0 [<- Hin]].
  rewrite length_map. rewrite Forall_forall in H. now apply H.
Qed.

(** The column sum of the code is the running sum. *)
Lemma sum32_running (x : IEEE.float) (xs : list IEEE.float) :
  fold_left IEEE.add32 xs x = running_sum x xs.
Proof.
  revert x. induction xs as [|y ys IH]; intros x; [reflexivity|].
  cbn [fold_left running_sum]. apply IH.
Qed.

Lemma mean32_mean (xs : list IEEE.float) : mean32 xs = mean xs.
Proof.
  unfold mean32, mean, sum32. destruct xs as [|x xs]; [reflexivity|].
  now rewrite sum32_running.
Qed.

Lemma np_mean_mean_color (l : list pixel32) : np_mean l = mean_color l.
Proof.
  unfold np_mean, mean_color. rewrite !mean32_mean. reflexivity.
Qed.

End FloatSamplerFacts.

Import FloatSamplerFacts.

Lemma ring7_image_wf : wf_image ring7_image.
Proof. split; [reflexivity|]. repeat constructor. Qed.

(** The arithmetic mean over all pixels of a uniform image is its
    colour. *)
Lemma uniform_whole_mean (r g b : Z) (h w : nat) :
  (1 <= h)%nat -> (1 <= w)%nat ->
  color_eq (np_mean (Spec.all_pixels (np_array (uniform_image (r, g, b) h w))))
           (Color (inject_Z r) (inject_Z g) (inject_Z b)).
Proof.
  intros Hh Hw. unfold Spec.all_pixels.
  assert (U : forall p,
             In p (concat (np_array (uniform_image (r, g, b) h w))) ->
             p = to_float (r, g, b))
    by (intros p Hp; now apply uniform_array_In in Hp).
  assert (NE : concat (np_array (uniform_image (r, g, b) h w)) <> []).
  { apply (whole_nonempty _ h w); try assumption.
    - apply np_array_height, uniform_image_wf.
    - apply (np_array_width (uniform_image (r, g, b) h w)), uniform_image_wf. }
  destruct (concat (np_array (uniform_image (r, g, b) h w))) as [|p s];
    [congruence|].
  cbn [np_mean color_eq].
  split; [|split];
    (apply chan_mean_const; [discriminate|];
     apply Forall_forall; intros q Hq; rewrite (U q Hq); reflexivity).
Qed.

(** The arithmetic mean over the edge band of a uniform image is its
    colour. *)
Lemma uniform_band_mean (r g b : Z) (h w : nat) (m : Z) :
  (1 <= h)%nat -> (1 <= w)%nat -> 1 <= m ->
  color_eq (np_mean (Spec.band_sample (np_array (uniform_image (r, g, b) h w))
                                      h w m))
           (Color (inject_Z r) (inject_Z g) (inject_Z b)).
Proof.
  intros Hh Hw Hm.
  pose proof (np_array_height _ (uniform_image_wf (r, g, b) h w)) as Ah.
  pose proof (np_array_width _ (uniform_image_wf (r, g, b) h w)) as Aw.
  cbn [height width uniform_image] in Ah, Aw.
  rewrite <- (all_edges_band _ h w Ah Aw m Hm).
  apply uniform_sample_mean.
  now apply (all_edges_nonempty _ h w Ah Aw).
Qed.

(** C3 fails as stated, in two ways.  (a) On the uniform white 129 x 129
    image with margin 100 percent the band mean is 255, but the code's
    float32 running sum loses precision beyond 2^24 and it returns
    255.0115...  (b) On a 7 x 7 image with the binary64 percentage
    28.57142857142857 the floor of min * percent / 100 is 1, but the code's
    rounded product gives margin 2, so it samples a band of thickness 2 and
    returns 42.14..., not the mean 10 of the one-pixel band. *)
Lemma C3_counterexample :
  (let img := uniform_image (255, 255, 255) 129 129 in
   FloatSampler.value_of (FloatSampler.PyInt 100) = Some 100%Q /\
   Spec.margin (height img) (width img) 100 = 129 /\
   color_eq (np_mean (Spec.band_sample (np_array img) 129 129 129))
            (Color 255 255 255) /\
   exists c,
     FloatSampler.analyze_background_color img (FloatSampler.PyInt 100)
       = FloatSampler.Returns (c, c, c) /\
     IEEE.to_Q c = Some (16712436 * 2 ^ (-16))%Q /\
     (255 < 16712436 * 2 ^ (-16))%Q) /\
  (exists q,
     FloatSampler.value_of (FloatSampler.PyFloat percent_28_57) = Some q /\
     Spec.margin (height ring7_image) (width ring7_image) q = 1 /\
     FloatSampler.margin_of 7 7 (FloatSampler.PyFloat percent_28_57)
       = FloatSampler.Returns 2 /\
     color_eq (np_mean (Spec.band_sample (np_array ring7_image) 7 7 1))
              (Color 10 10 10) /\
     exists c,
       FloatSampler.analyze_background_color
         ring7_image (FloatSampler.PyFloat percent_28_57)
         = FloatSampler.Returns (c, c, c) /\
       IEEE.to_Q c = Some (11047497 * 2 ^ (-18))%Q /\
       ~ (11047497 * 2 ^ (-18) == 10)%Q).
Proof.
  split.
  - cbv zeta. split; [reflexivity|]. split; [reflexivity|].
    split; [apply (uniform_band_mean 255 255 255 129 129 129); lia|].
    eexists. split; [vm_compute; reflexivity|].
    split; [reflexivity|]. vm_compute. reflexivity.
  - eexists. split; [reflexivity|]. split; [vm_compute; reflexivity|].
    split; [vm_compute; reflexivity|].
    split; [split; [|split]; vm_compute; reflexivity|].
    eexists. split; [vm_compute; reflexivity|].
    split; [reflexivity|]. intros H. vm_compute in H. discriminate H.
Qed.

(** C3, amended.  For an image with height, width >= 1 and a margin
    percentage for which the margin the code computes,
    int(min(height, width) * marginPercent / 100) in binary64, is m >= 1,
    [analyze_background_color] returns the unrounded float32 mean (the
    float32 running sum of each channel in sample order, divided by the
    count) over the pixels of the top m rows, the bottom m rows, the left m
    columns and the right m columns, a pixel counting once for every band it
    lies in. *)
Theorem C3_float32_mean_over_edge_bands (img : image)
        (marginPercent : FloatSampler.number) (m : Z) :
  wf_image img ->
  (1 <= height img)%nat ->
  (1 <= width img)%nat ->
  FloatSampler.margin_of (height img) (width img) marginPercent
    = FloatSampler.Returns m ->
  1 <= m ->
  let sample :=
    Spec32.band_sample Spec32.zero32 (FloatSampler.np_array img)
                       (height img) (width img) m in
  sample <> [] /\
  FloatSampler.analyze_background_color img marginPercent
  = FloatSampler.Returns (Spec32.mean_color sample).
Proof.
  intros Hwf Hh Hw Hm Hpos sample.
  pose proof (float_array_height img Hwf) as Ah.
  pose proof (float_array_width img Hwf) as Aw.
  pose proof (strips_are_bands Spec32.zero32 _ _ _ Ah Aw m Hpos) as E.
  fold sample in E.
  split.
  - rewrite <- E. now apply (strips_nonempty _ _ _ Ah Aw).
  - unfold FloatSampler.analyze_background_color. rewrite Hm. cbv zeta.
    rewrite E. now rewrite np_mean_mean_color.
Qed.

Lemma C3_witness :
  wf_image ring7_image /\
  (1 <= height ring7_image)%nat /\ (1 <= width ring7_image)%nat /\
  FloatSampler.margin_of (height ring7_image) (width ring7_image)
                         (FloatSampler.PyInt 20) = FloatSampler.Returns 1 /\
  1 <= 1 /\
  exists c,
    FloatSampler.analyze_background_color ring7_image (FloatSampler.PyInt 20)
      = FloatSampler.Returns (c, c, c) /\
    IEEE.to_Q c = Some (10485760 * 2 ^ (-20))%Q /\
    (10485760 * 2 ^ (-20) == 10)%Q.
Proof.
  assert (H1 : (1 <= height ring7_image)%nat) by (simpl; lia).
  assert (H2 : (1 <= width ring7_image)%nat) by (simpl; lia).
  assert (H3 : FloatSampler.margin_of (height ring7_image) (width ring7_image)
                 (FloatSampler.PyInt 20) = FloatSampler.Returns 1)
    by (vm_compute; reflexivity).
  assert (H4 : 1 <= 1) by lia.
  split; [exact ring7_image_wf|]. split; [exact H1|]. split; [exact H2|].
  split; [exact H3|]. split; [exact H4|].
  destruct (C3_float32_mean_over_edge_bands ring7_image
              (FloatSampler.PyInt 20) 1 ring7_image_wf H1 H2 H3 H4)
    as [_ E].
  eexists. split; [rewrite E; vm_compute; reflexivity|].
  split; [reflexivity|]. vm_compute. reflexivity.
Defined.

(** C10 fails as stated, in two ways.  (a) On a 7 x 7 image with the
    binary64 percentage 14.285714285714285 the floor of
    min * percent / 100 is 0, but the code's rounded product gives margin 1:
    it does sample the one-pixel edge band and returns 10, not the mean
    2740/49 of the whole image.  (b) On the uniform white 182 x 182 image
    with margin 0 the mean over all pixels is 255, but the float32 running
    sum over the 66248 samples loses precision and the code returns
    255.0068... *)
Lemma C10_counterexample :
  (exists q,
     FloatSampler.value_of (FloatSampler.PyFloat percent_14_28) = Some q /\
     Spec.margin (height ring7_image) (width ring7_image) q = 0 /\
     FloatSampler.margin_of 7 7 (FloatSampler.PyFloat percent_14_28)
       = FloatSampler.Returns 1 /\
     FloatSampler.top_edge (FloatSampler.np_array ring7_image) 1 <> [] /\
     color_eq (np_mean (Spec.all_pixels (np_array ring7_image)))
              (Color (2740 # 49) (2740 # 49) (2740 # 49)) /\
     exists c,
       FloatSampler.analyze_background_color
         ring7_image (FloatSampler.PyFloat percent_14_28)
         = FloatSampler.Returns (c, c, c) /\
       IEEE.to_Q c = Some (10485760 * 2 ^ (-20))%Q /\
       (10485760 * 2 ^ (-20) == 10)%Q /\
       ~ (10 == 2740 # 49)%Q) /\
  (let img := uniform_image (255, 255, 255) 182 182 in
   FloatSampler.value_of (FloatSampler.PyInt 0) = Some 0%Q /\
   Spec.margin (height img) (width img) 0 = 0 /\
   color_eq (np_mean (Spec.all_pixels (np_array img))) (Color 255 255 255) /\
   exists c,
     FloatSampler.analyze_background_color img (FloatSampler.PyInt 0)
       = FloatSampler.Returns (c, c, c) /\
     IEEE.to_Q c = Some (16712127 * 2 ^ (-16))%Q /\
     (255 < 16712127 * 2 ^ (-16))%Q).
Proof.
  split.
  - eexists. split; [reflexivity|]. split; [vm_compute; reflexivity|].
    split; [vm_compute; reflexivity|].
    split; [vm_compute; discriminate|].
    split; [split; [|split]; vm_compute; reflexivity|].
    eexists. split; [vm_compute; reflexivity|].
    split; [reflexivity|]. split; [vm_compute; reflexivity|].
    intros H. vm_compute in H. discriminate H.
  - cbv zeta. split; [reflexivity|]. split; [reflexivity|].
    split; [apply (uniform_whole_mean 255 255 255 182 182); lia|].
    eexists. split; [vm_compute; reflexivity|].
    split; [reflexivity|]. vm_compute. reflexivity.
Qed.

(** C10, amended.  For an image with height, width >= 1 for which the
    margin the code computes, int(min(height, width) * marginPercent / 100)
    in binary64, is 0, the top and left strips are empty and the bottom and
    right strips are the whole image, so [analyze_background_color] returns
    the float32 mean (float32 running sum divided by the count) over all
    pixels of the image in row order, taken twice. *)
Theorem C10_zero_margin_float32_mean_of_whole_image (img : image)
        (marginPercent : FloatSampler.number) :
  wf_image img ->
  (1 <= height img)%nat ->
  (1 <= width img)%nat ->
  FloatSampler.margin_of (height img) (width img) marginPercent
    = FloatSampler.Returns 0 ->
  let a := FloatSampler.np_array img in
  let sample := concat a ++ concat a in
  FloatSampler.top_edge a 0 = [] /\
  FloatSampler.left_edge a 0 = [] /\
  FloatSampler.bottom_edge a 0 = concat a /\
  FloatSampler.right_edge a 0 = concat a /\
  FloatSampler.all_edges a 0 = sample /\
  concat a <> [] /\
  FloatSampler.analyze_background_color img marginPercent
  = FloatSampler.Returns (Spec32.mean_color sample).
Proof.
  intros Hwf Hh Hw Hm a sample.
  destruct (strips_zero a) as [T [L [B R]]].
  assert (E : FloatSampler.all_edges a 0 = sample).
  { unfold FloatSampler.all_edges. rewrite T, L, B, R. reflexivity. }
  repeat (split; [assumption|]).
  split.
  - apply (whole_nonempty a (height img) (width img)); try assumption.
    + now apply float_array_height.
    + now apply float_array_width.
  - unfold FloatSampler.analyze_background_color. rewrite Hm. cbv zeta.
    fold a. rewrite E. now rewrite np_mean_mean_color.
Qed.

Lemma C10_witness :
  wf_image ring7_image /\
  (1 <= height ring7_image)%nat /\ (1 <= width ring7_image)%nat /\
  FloatSampler.margin_of (height ring7_image) (width ring7_image)
                         (FloatSampler.PyInt 5) = FloatSampler.Returns 0 /\
  exists c,
    FloatSampler.analyze_background_color ring7_image (FloatSampler.PyInt 5)
      = FloatSampler.Returns (c, c, c) /\
    IEEE.to_Q c = Some (14658664 * 2 ^ (-18))%Q.
Proof.
  assert (H1 : (1 <= height ring7_image)%nat) by (simpl; lia).
  assert (H2 : (1 <= width ring7_image)%nat) by (simpl; lia).
  assert (H3 : FloatSampler.margin_of (height ring7_image) (width ring7_image)
                 (FloatSampler.PyInt 5) = FloatSampler.Returns 0)
    by (vm_compute; reflexivity).
  split; [exact ring7_image_wf|]. split; [exact H1|]. split; [exact H2|].
  split; [exact H3|].
  destruct (C10_zero_margin_float32_mean_of_whole_image ring7_image
              (FloatSampler.PyInt 5) ring7_image_wf H1 H2 H3)
    as [_ [_ [_ [_ [_ [_ E]]]]]].
  eexists. split; [rewrite E; vm_compute; reflexivity|]. reflexivity.
Defined.
